(** * Go-RCON: the wire codec, the ID allocator and the session controller

    A shallow embedding of the Go sources of RefractorGSCM/Go-RCON:

    - package [packet]  (packet/client.go, packet/type.go): [ClientPacket],
      [getNextID], [Size], [Body], [Build], [DecodeClientPacket];
    - the older payload codec of package rcon (payload.go, packet.go):
      [getSize], [buildPacketFromPayload], [buildPayloadFromPacket];
    - the single-socket client of package rcon: [sendPacket],
      [readPacketTimeout], [authenticate], [Connect], [enqueuePacket],
      [getResponse], [ExecCommand], [Close], [disconnect].

    Conventions.  A Go [int32] is a [Z] with the wrap-around of every
    operation written out ([int32]).  A [[]byte] and a Go [string] are a
    [list byte]; the model does not distinguish a nil slice from an empty
    one.  An [error] interface value is an [option error], [None] being
    Go's [nil].  Calls to the logger have no effect on the state and are
    left out. *)

From Stdlib Require Import ZArith List Lia String Bool.
From coqutil Require Import Byte Word.LittleEndianList.
From stdpp Require Import gmap.
Import ListNotations.
Local Open Scope Z_scope.

(** ** Fixed-width integers *)

Definition MaxInt32 : Z := 2147483647.
Definition MinInt32 : Z := -2147483648.

(** Conversion to [int32]: the low 32 bits, read as two's complement. *)
Definition int32 (z : Z) : Z := (z + 2 ^ 31) mod 2 ^ 32 - 2 ^ 31.

(** Conversion to [uint32]. *)
Definition uint32 (z : Z) : Z := z mod 2 ^ 32.

Definition in_int32 (z : Z) : Prop := MinInt32 <= z <= MaxInt32.

(** ** Errors *)

(** Errors raised by the [io] and [net] packages.  [OpError] stands for any
    error of the operating system or of package net; it carries the text
    that its [Error()] method returns. *)
Inductive ioerror : Type :=
| EOF
| ErrUnexpectedEOF
| ErrClosedPipe
| OpError (msg : string).

Definition Error (e : ioerror) : string :=
  match e with
  | EOF => "EOF"
  | ErrUnexpectedEOF => "unexpected EOF"
  | ErrClosedPipe => "io: read/write on closed pipe"
  | OpError msg => msg
  end.

(** Modelled from the spec: the sentinel errors of package [errs]
    ([errs.ErrNotConnected], [errs.ErrAuthentication],
    [errs.ErrQueueTimeout], [errs.ErrReadTimeout]), whose source file is not
    part of the sources; the specification lists them as the kinds
    NotConnected, Authentication, QueueTimeout and ReadTimeout.  The other
    constructors are an [io]/[net] error, an error made by [fmt.Errorf], and
    the annotation added by [errors.Wrap] of github.com/pkg/errors. *)
Inductive error : Type :=
| ErrNotConnected
| ErrAuthentication
| ErrQueueTimeout
| ErrReadTimeout
| Io (e : ioerror)
| Errorf (msg : string)
| withMessage (cause : error) (msg : string).

Module errors.

(** [errors.Wrap]: "If err is nil, Wrap returns nil." *)
Definition Wrap (err : option error) (message : string) : option error :=
  match err with
  | None => None
  | Some e => Some (withMessage e message)
  end.

(** [errors.Cause]: the innermost error of a chain of annotations. *)
Fixpoint Cause (err : error) : error :=
  match err with
  | withMessage cause _ => Cause cause
  | _ => err
  end.

End errors.

(** [strings.HasSuffix]. *)
Definition HasSuffix (s suffix : string) : bool :=
  let n := String.length s in
  let k := String.length suffix in
  (k <=? n)%nat && String.eqb (String.substring (n - k) k s) suffix.

Definition closedConnText : string := "use of closed network connection".

(** ** Package endian and encoding/binary *)

Module endian.
Inductive Mode : Type := Little | Big.
End endian.

Module binary.
Import endian.

(** [order.PutUint32]: the four bytes of the low 32 bits of [v]. *)
Definition PutUint32 (order : Mode) (v : Z) : list byte :=
  match order with
  | Little => le_split 4 v
  | Big => rev (le_split 4 v)
  end.

(** [order.Uint32]. *)
Definition Uint32 (order : Mode) (b : list byte) : Z :=
  match order with
  | Little => le_combine b
  | Big => le_combine (rev b)
  end.

(** The values that the sources hand to [binary.Write]. *)
Inductive data : Type :=
| Int32 (v : Z)
| Bytes (b : list byte)
| Uint8 (b : byte).

Definition encode (order : Mode) (d : data) : list byte :=
  match d with
  | Int32 v => PutUint32 order v
  | Bytes b => b
  | Uint8 b => [b]
  end.

(** [binary.Write] into a [bytes.Buffer]: the encoding is appended; a
    write into a buffer of fixed-size data returns no error. *)
Definition Write (buffer : list byte) (order : Mode) (d : data)
  : list byte * option error :=
  (buffer ++ encode order d, None).

End binary.

(** ** Byte streams: io.Reader, io.ReadFull, binary.Read *)

(** An [io.Reader] seen from its consumer: the bytes it still delivers and
    the error it returns once they are used up ([EOF] for a
    [bytes.Reader] or a connection closed by the peer, a timeout or a
    closed-connection error for a socket). *)
Record Reader : Type := mkReader { pending : list byte; closing : ioerror }.

Definition ioerror_is_EOF (e : ioerror) : bool :=
  match e with EOF => true | _ => false end.

(** [io.ReadFull(r, buf)] with [len(buf) = n]: all [n] bytes, or an error;
    no read is made for an empty buffer, and an [EOF] met after a part of
    the bytes becomes [ErrUnexpectedEOF]. *)
Definition ReadFull (r : Reader) (n : nat) : (list byte * Reader) + ioerror :=
  if (n =? 0)%nat then inl ([], r)
  else if (n <=? length (pending r))%nat
       then inl (firstn n (pending r), mkReader (skipn n (pending r)) (closing r))
       else if negb (length (pending r) =? 0)%nat && ioerror_is_EOF (closing r)
            then inr ErrUnexpectedEOF
            else inr (closing r).

Module binaryRead.
Import endian.

(** [binary.Read(reader, order, &v)] for [v] of type [int32]. *)
Definition Read (r : Reader) (order : Mode) : (Z * Reader) + ioerror :=
  match ReadFull r 4 with
  | inl (bs, r') => inl (int32 (binary.Uint32 order bs), r')
  | inr e => inr e
  end.

End binaryRead.

(** ** Package bytes *)

Module bytes.

Fixpoint trimLeftByte (s : list byte) (c : byte) : list byte :=
  match s with
  | b :: s' => if Byte.eqb b c then trimLeftByte s' c else s
  | [] => []
  end.

Definition trimRightByte (s : list byte) (c : byte) : list byte :=
  rev (trimLeftByte (rev s) c).

(** [bytes.Trim(s, cutset)] for a cutset of one ASCII byte [c]: all
    leading and all trailing [c] are sliced off. *)
Definition Trim (s : list byte) (c : byte) : list byte :=
  trimLeftByte (trimRightByte s c) c.

End bytes.

(** The two cutsets of the decoders. *)
Definition NUL : byte := Byte.x00.
Definition LF : byte := Byte.x0a.

(** ** Package packet *)

Module packet.
Import endian.

(** type.go *)
Definition TypeAuth : Z := 3.
Definition TypeAuthRes : Z := 2.
Definition TypeCommand : Z := 2.
Definition TypeCommandRes : Z := 0.
Definition AuthFailedID : Z := -1.

Record ClientPacket : Type := mkClientPacket {
  mode : Mode;
  pType : Z;
  body : list byte;
  id : Z
}.

Fixpoint idInArr (arr : list Z) (i : Z) : bool :=
  match arr with
  | v :: arr' => if v =? i then true else idInArr arr' i
  | [] => false
  end.

(** The two branches shared by both places of [getNextID] that move the
    counter: back to 1 when the successor is [math.MaxInt32], the
    successor otherwise. *)
Definition advance (n : Z) : Z :=
  if int32 (n + 1) =? MaxInt32 then 1 else int32 (n + 1).

(** The [for idInArr(...)] loop of [getNextID].  The loop has no bound in
    the source; [fuel] bounds the iterations and [None] means that the
    loop was still running when the fuel ran out. *)
Fixpoint skipRestricted (fuel : nat) (restrictedIDs : list Z) (n : Z)
  : option Z :=
  match fuel with
  | O => None
  | S fuel' =>
      if idInArr restrictedIDs n
      then skipRestricted fuel' restrictedIDs (advance n)
      else Some n
  end.

(** [getNextID] from the value [nextClientPacketID] of the package-level
    counter; the result is both the returned ID and the new counter. *)
Definition getNextID (fuel : nat) (restrictedIDs : list Z)
    (nextClientPacketID : Z) : option Z :=
  skipRestricted fuel restrictedIDs (advance nextClientPacketID).

(** [NewClientPacket]: the packet and the new value of the counter. *)
Definition NewClientPacket (fuel : nat) (m : Mode) (t : Z)
    (b : list byte) (restrictedIDs : list Z) (nextClientPacketID : Z)
  : option (ClientPacket * Z) :=
  match getNextID fuel restrictedIDs nextClientPacketID with
  | Some n => Some (mkClientPacket m t b n, n)
  | None => None
  end.

Definition int32Bytes : Z := 4.
Definition endPadBytes : Z := 1.

Definition Body (p : ClientPacket) : list byte := body p ++ [NUL].

Definition Size (p : ClientPacket) : Z :=
  int32 (int32 (int32 (int32Bytes + int32Bytes)
                + int32 (Z.of_nat (length (Body p))))
         + endPadBytes).

Definition ID (p : ClientPacket) : Z := id p.

Definition Type_ (p : ClientPacket) : Z := pType p.

Definition Build (p : ClientPacket) : list byte * option error :=
  let buffer := [] in
  let order := mode p in
  match binary.Write buffer order (binary.Int32 (Size p)) with
  | (_, Some err) => ([], errors.Wrap (Some err) "could not write packet size")
  | (buffer, None) =>
  match binary.Write buffer order (binary.Int32 (ID p)) with
  | (_, Some err) => ([], errors.Wrap (Some err) "could not write packet size")
  | (buffer, None) =>
  match binary.Write buffer order (binary.Int32 (Type_ p)) with
  | (_, Some err) => ([], errors.Wrap (Some err) "could not write packet size")
  | (buffer, None) =>
  match binary.Write buffer order (binary.Bytes (Body p)) with
  | (_, Some err) => ([], errors.Wrap (Some err) "could not write packet size")
  | (buffer, None) =>
  match binary.Write buffer order (binary.Uint8 NUL) with
  | (_, Some err) => ([], errors.Wrap (Some err) "could not write packet size")
  | (buffer, None) => (buffer, None)
  end end end end end.

(** The three ways a call of [DecodeClientPacket] ends: a packet (and the
    rest of the stream), an error, or a run-time panic. *)
Inductive DecodeResult : Type :=
| Decoded (p : ClientPacket) (rest : Reader)
| DecodeErr (e : ioerror)
| DecodePanic.

(** [DecodeClientPacket].  [make([]byte, bodyLen)] panics for a negative
    length; on a 64-bit platform every other [int32] length is accepted. *)
Definition DecodeClientPacket (m : Mode) (reader : Reader) : DecodeResult :=
  match binaryRead.Read reader m with
  | inr err => DecodeErr err
  | inl (size, reader) =>
  match binaryRead.Read reader m with
  | inr err => DecodeErr err
  | inl (i, reader) =>
  match binaryRead.Read reader m with
  | inr err => DecodeErr err
  | inl (t, reader) =>
      let bodyLen := int32 (int32 (size - 4) - 4) in
      if bodyLen <? 0 then DecodePanic
      else
        match ReadFull reader (Z.to_nat bodyLen) with
        | inr err => DecodeErr err
        | inl (b, reader) =>
            let b := bytes.Trim b NUL in
            let b := bytes.Trim b LF in
            Decoded (mkClientPacket m t b i) reader
        end
  end end end.

End packet.


(** ** The older payload codec of package rcon (payload.go, packet.go) *)

Module payload.

Definition packetIDAuthFailed : Z := -1.
Definition payloadIDBytes : Z := 4.
Definition payloadTypeBytes : Z := 4.
Definition payloadNullBytes : Z := 2.
Definition payloadMaxSize : Z := 2048.

(** The field [NonBroadcastPatterns] of the source plays no part in the
    codec and is left out. *)
Record payload : Type := mkPayload {
  ID : Z;
  Type_ : Z;
  Body : list byte
}.

Definition getSize (p : payload) : Z :=
  int32 (Z.of_nat (length (Body p))
         + (payloadIDBytes + payloadTypeBytes + payloadNullBytes)).

(** The results of the five [binary.Write] calls are dropped in the source
    ([_ = binary.Write(...)]). *)
Definition buildPacketFromPayload (p : payload) : list byte * option error :=
  let buffer := [] in
  let buffer := fst (binary.Write buffer endian.Little (binary.Int32 (getSize p))) in
  let buffer := fst (binary.Write buffer endian.Little (binary.Int32 (ID p))) in
  let buffer := fst (binary.Write buffer endian.Little (binary.Int32 (Type_ p))) in
  let buffer := fst (binary.Write buffer endian.Little (binary.Bytes (Body p))) in
  let buffer := fst (binary.Write buffer endian.Little (binary.Bytes [NUL; NUL])) in
  if Z.of_nat (length buffer) >=? payloadMaxSize
  then ([], Some (Errorf "payload too large, max size is: 2048"))
  else (buffer, None).

Definition buildPayloadFromPacket (socket : Reader)
  : (payload * Reader) + error :=
  match binaryRead.Read socket endian.Little with
  | inr err => inr (Io err)
  | inl (packetSize, socket) =>
  match binaryRead.Read socket endian.Little with
  | inr err => inr (Io err)
  | inl (packetID, socket) =>
  match binaryRead.Read socket endian.Little with
  | inr err => inr (Io err)
  | inl (packetType, socket) =>
      let packetBodyLen :=
        int32 (packetSize - int32 (payloadIDBytes + payloadTypeBytes)) in
      if packetBodyLen <? 1
      then inr (Errorf "empty packet body received")
      else
        match ReadFull socket (Z.to_nat packetBodyLen) with
        | inr err => inr (Io err)
        | inl (packetBody, socket) =>
            let packetBody := bytes.Trim packetBody NUL in
            let packetBody := bytes.Trim packetBody LF in
            inl (mkPayload packetID packetType packetBody, socket)
        end
  end end end.

(** [newPayload] from the value [currentPayloadID] of the package-level
    counter: the payload and the new value of the counter.  The counter is
    incremented without any test; [payloadType] is an [int], converted to
    [int32]. *)
Definition newPayload (payloadType : Z) (body : list byte)
    (currentPayloadID : Z) : payload * Z :=
  let currentPayloadID := int32 (currentPayloadID + 1) in
  (mkPayload currentPayloadID (int32 payloadType) body, currentPayloadID).

(** What one call of [sendPayload] does: the bytes it has written to the
    connection, when [conn.Write] returned nil, and what it returns. *)
Record Exchange : Type := mkExchange {
  written : option (list byte);
  reply : payload + error
}.

(** [sendPayload]: [werr] is what [conn.Write] returns and [conn] the
    stream read from the connection afterwards. *)
Definition sendPayload (werr : option ioerror) (conn : Reader)
    (request : payload) : Exchange :=
  match buildPacketFromPayload request with
  | (_, Some err) => mkExchange None (inr err)
  | (packet, None) =>
      match werr with
      | Some err => mkExchange None (inr (Io err))
      | None =>
          match buildPayloadFromPacket conn with
          | inr err => mkExchange (Some packet) (inr err)
          | inl (response, _) =>
              if ID response =? packetIDAuthFailed
              then mkExchange (Some packet)
                     (inr (Errorf "authentication failed"))
              else mkExchange (Some packet) (inl response)
          end
      end
  end.

End payload.

(** ** The older two-socket client of package rcon *)

Module legacy.
Import payload.

Definition serverDataAuth : Z := 3.
Definition serverDataExecCommand : Z := 2.

(** [authenticate(socket)] of the older client: the error it returns, the
    new value of the payload counter, and the bytes written. *)
Definition authenticate (password : list byte) (currentPayloadID : Z)
    (werr : option ioerror) (socket : Reader)
  : option error * Z * option (list byte) :=
  let (request, currentPayloadID) :=
    newPayload serverDataAuth password currentPayloadID in
  let x := sendPayload werr socket request in
  (match reply x with inr err => Some err | inl _ => None end,
   currentPayloadID, written x).

End legacy.

(** ** The single-socket client of package rcon *)

Module rcon.
Import endian packet.

(** What the client does to the outside and to its fibers, in program
    order. *)
Inductive Event : Type :=
| EvSocketWrite (data : list byte)      (* c.conn.Write(data) returned nil *)
| EvQueued (p : ClientPacket)           (* the send c.writeQueue <- p took place *)
| EvMailboxCreated (i : Z)              (* c.readQueue[i] = make(chan ...) *)
| EvMailboxRemoved (i : Z)              (* close(c.readQueue[i]); delete(...) *)
| EvTerminate                           (* close(c.terminate) *)
| EvSocketClose                         (* c.conn.Close() *)
| EvDisconnectHandler (err : option error) (expected : bool)
| EvBroadcastHandler (msg : list byte)
| EvToDispatcher (p : ClientPacket)     (* the send readChan <- p took place *)
| EvSpawnWriter
| EvSpawnReader.

(** The fields of [Config] and [Client] that the modelled functions read
    or write, and the package-level counter of package packet.  [conn] is
    [true] when [c.conn] is not nil, [terminate] is [true] once the channel
    [c.terminate] is closed, [readQueue] holds the IDs that have a mailbox.
    [writerRunning] tells whether a fiber started by [Connect] is receiving
    from [c.writeQueue]. *)
Record State : Type := mkState {
  nextClientPacketID : Z;
  Password : list byte;
  EndianMode : Mode;
  RestrictedPacketIDs : list Z;
  BroadcastChecker : ClientPacket -> bool;
  hasBroadcastHandler : bool;
  hasDisconnectHandler : bool;
  conn : bool;
  terminate : bool;
  writerRunning : bool;
  readQueue : gmap Z unit;
  trace : list Event
}.

Definition emit (e : Event) (s : State) : State :=
  mkState (nextClientPacketID s) (Password s) (EndianMode s)
    (RestrictedPacketIDs s) (BroadcastChecker s) (hasBroadcastHandler s)
    (hasDisconnectHandler s) (conn s) (terminate s) (writerRunning s)
    (readQueue s) (trace s ++ [e]).

Definition set_nextClientPacketID (n : Z) (s : State) : State :=
  mkState n (Password s) (EndianMode s)
    (RestrictedPacketIDs s) (BroadcastChecker s) (hasBroadcastHandler s)
    (hasDisconnectHandler s) (conn s) (terminate s) (writerRunning s)
    (readQueue s) (trace s).

Definition set_conn (b : bool) (s : State) : State :=
  mkState (nextClientPacketID s) (Password s) (EndianMode s)
    (RestrictedPacketIDs s) (BroadcastChecker s) (hasBroadcastHandler s)
    (hasDisconnectHandler s) b (terminate s) (writerRunning s)
    (readQueue s) (trace s).

Definition set_terminate (b : bool) (s : State) : State :=
  mkState (nextClientPacketID s) (Password s) (EndianMode s)
    (RestrictedPacketIDs s) (BroadcastChecker s) (hasBroadcastHandler s)
    (hasDisconnectHandler s) (conn s) b (writerRunning s)
    (readQueue s) (trace s).

Definition set_writerRunning (b : bool) (s : State) : State :=
  mkState (nextClientPacketID s) (Password s) (EndianMode s)
    (RestrictedPacketIDs s) (BroadcastChecker s) (hasBroadcastHandler s)
    (hasDisconnectHandler s) (conn s) (terminate s) b
    (readQueue s) (trace s).

Definition set_readQueue (q : gmap Z unit) (s : State) : State :=
  mkState (nextClientPacketID s) (Password s) (EndianMode s)
    (RestrictedPacketIDs s) (BroadcastChecker s) (hasBroadcastHandler s)
    (hasDisconnectHandler s) (conn s) (terminate s) (writerRunning s)
    q (trace s).

Definition set_hasDisconnectHandler (b : bool) (s : State) : State :=
  mkState (nextClientPacketID s) (Password s) (EndianMode s)
    (RestrictedPacketIDs s) (BroadcastChecker s) (hasBroadcastHandler s)
    b (conn s) (terminate s) (writerRunning s)
    (readQueue s) (trace s).

(** How a call ends: it returns, it panics, or it is still inside the
    loop of [getNextID] when the fuel runs out. *)
Inductive Outcome (A : Type) : Type :=
| Returns (a : A) (s : State)
| Panics (msg : string) (s : State)
| Diverges (s : State).
Arguments Returns {A} a s.
Arguments Panics {A} msg s.
Arguments Diverges {A} s.

Definition M (A : Type) : Type := State -> Outcome A.

Definition ret {A : Type} (a : A) : M A := fun s => Returns a s.

Definition bind {A B : Type} (m : M A) (k : A -> M B) : M B :=
  fun s =>
    match m s with
    | Returns a s' => k a s'
    | Panics msg s' => Panics msg s'
    | Diverges s' => Diverges s'
    end.

Notation "'let*' x ':=' m 'in' k" := (bind m (fun x => k))
  (at level 10, x name, m at level 100, k at level 200).

Definition gets {A : Type} (f : State -> A) : M A := fun s => Returns (f s) s.

Definition modify (f : State -> State) : M unit := fun s => Returns tt (f s).

Definition panic {A : Type} (msg : string) : M A := fun s => Panics msg s.

Definition final_state {A : Type} (o : Outcome A) : State :=
  match o with
  | Returns _ s => s
  | Panics _ s => s
  | Diverges s => s
  end.

(** What a call returns, when it returns. *)
Definition returned {A : Type} (o : Outcome A) : option A :=
  match o with
  | Returns a _ => Some a
  | _ => None
  end.

(** The configuration handed to [NewClient]: the fields of [Config] kept
    by the model. *)
Record Config : Type := mkConfig {
  cfgPassword : list byte;
  cfgEndianMode : option Mode;
  cfgRestrictedPacketIDs : list Z;
  cfgBroadcastChecker : option (ClientPacket -> bool);
  cfgBroadcastHandler : bool;
  cfgDisconnectHandler : bool
}.

(** [NewClient]; [counter] is the value of the package-level packet
    counter at that time (0 in a fresh process). *)
Definition NewClient (config : Config) (counter : Z) : State :=
  mkState counter (cfgPassword config)
    (match cfgEndianMode config with Some m => m | None => Little end)
    (cfgRestrictedPacketIDs config)
    (match cfgBroadcastChecker config with
     | Some f => f
     | None => fun _ => false
     end)
    (cfgBroadcastHandler config) (cfgDisconnectHandler config)
    false false false ∅ [].

(** [c.newClientPacket]. *)
Definition newClientPacket (fuel : nat) (t : Z) (b : list byte)
  : M ClientPacket :=
  fun s =>
    match NewClientPacket fuel (EndianMode s) t b (RestrictedPacketIDs s)
            (nextClientPacketID s) with
    | Some (p, n) => Returns p (set_nextClientPacketID n s)
    | None => Diverges s
    end.

(** [c.write]: [werr] is what [c.conn.Write] returns.  A method call
    through a nil [*net.TCPConn] is a nil dereference. *)
Definition write (data : list byte) (werr : option ioerror)
  : M (option error) :=
  fun s =>
    if conn s
    then match werr with
         | Some e => Returns (Some (Io e)) s
         | None => Returns None (emit (EvSocketWrite data) s)
         end
    else Panics "nil pointer dereference" s.

Definition sendPacket (p : ClientPacket) (werr : option ioerror)
  : M (option error) :=
  match Build p with
  | (_, Some err) => ret (errors.Wrap (Some err) "could not build packet")
  | (out, None) =>
      let* err := write out werr in
      match err with
      | Some err =>
          ret (errors.Wrap (Some err) "could not send authentication packet")
      | None => ret None
      end
  end.

(** What the network does during one read: the result of
    [c.conn.SetDeadline] and the stream that the buffered reader sees. *)
Record ReadEnv : Type := mkReadEnv {
  deadlineErr : option ioerror;
  inbound : Reader
}.

(** [readPacket] and [readPacketTimeout] differ only in the deadline they set,
    which is part of [env]. *)
Definition readPacket (env : ReadEnv) : M (ClientPacket + error) :=
  fun s =>
    if negb (conn s) then Returns (inr ErrNotConnected) s
    else
      match deadlineErr env with
      | Some err =>
          if HasSuffix (Error err) closedConnText
          then Returns (inr ErrNotConnected) s
          else Returns (inr (withMessage (Io err)
                               "could not set connection deadline")) s
      | None =>
          match DecodeClientPacket (EndianMode s) (inbound env) with
          | DecodePanic => Panics "makeslice: len out of range" s
          | DecodeErr err =>
              if HasSuffix (Error err) closedConnText
              then Returns (inr ErrNotConnected) s
              else Returns (inr (withMessage (Io err) "could not read packet")) s
          | Decoded res _ => Returns (inl res) s
          end
      end.

Definition readPacketTimeout (env : ReadEnv) : M (ClientPacket + error) :=
  readPacket env.

(** [authenticate].  At the test of the response type the variable [err]
    holds the nil result of the read that has just succeeded. *)
Definition authenticate (fuel : nat) (werr : option ioerror) (env : ReadEnv)
  : M (option error) :=
  let* password := gets Password in
  let* p := newClientPacket fuel TypeAuth password in
  let* err := sendPacket p werr in
  match err with
  | Some err => ret (errors.Wrap (Some err) "could not send packet")
  | None =>
      let* r := readPacketTimeout env in
      match r with
      | inr err => ret (errors.Wrap (Some err) "could not get auth response")
      | inl res =>
          let err : option error := None in
          if negb (Type_ res =? TypeAuthRes)
          then ret (errors.Wrap err "packet was not of the type auth response")
          else if ID res =? AuthFailedID
          then ret (errors.Wrap (Some ErrAuthentication) "authentication failed")
          else ret None
      end
  end.

(** What the network does during [Connect]: the result of the dial,
    whether the dialled connection is a [*net.TCPConn], the result of
    [SetDeadline], of the write of the AUTH packet, and the read of the
    response. *)
Record ConnectEnv : Type := mkConnectEnv {
  dialErr : option ioerror;
  dialIsTCP : bool;
  connDeadlineErr : option ioerror;
  authWriteErr : option ioerror;
  authRead : ReadEnv
}.

(** [Connect].  The two [go func() { ... }()] statements start the writer
    and the reader fibers. *)
Definition Connect (fuel : nat) (env : ConnectEnv) : M (option error) :=
  match dialErr env with
  | Some err => ret (errors.Wrap (Some (Io err)) "tcp dial failure")
  | None =>
      let err : option error := None in
      let* _ := modify (set_conn (dialIsTCP env)) in
      if negb (dialIsTCP env) then ret (errors.Wrap err "tcp dial failure")
      else
        match connDeadlineErr env with
        | Some err =>
            ret (errors.Wrap (Some (Io err))
                   "could not set tcp connection deadline")
        | None =>
            let* err := authenticate fuel (authWriteErr env) (authRead env) in
            match err with
            | Some err => ret (Some err)
            | None =>
                let* _ := modify (emit EvSpawnWriter) in
                let* _ := modify (set_writerRunning true) in
                let* _ := modify (emit EvSpawnReader) in
                ret None
            end
        end
  end.

(** [SetDisconnectHandler]; [handler] tells whether the new handler is
    not nil. *)
Definition SetDisconnectHandler (handler : bool) : M unit :=
  modify (set_hasDisconnectHandler handler).

(** [disconnect].  Closing a channel that is already closed panics. *)
Definition disconnect (err : option error) : M unit :=
  let* closed := gets terminate in
  if closed then panic "close of closed channel"
  else
    let* _ := modify (set_terminate true) in
    let* _ := modify (emit EvTerminate) in
    let* c := gets conn in
    if negb c then panic "nil pointer dereference"
    else
      let* _ := modify (emit EvSocketClose) in
      let* _ := modify (set_conn false) in
      let* h := gets hasDisconnectHandler in
      if h
      then modify (emit (EvDisconnectHandler err
                           (match err with None => true | Some _ => false end)))
      else ret tt.

(** [Close]. *)
Definition Close : M (option error) :=
  let* c := gets conn in
  if negb c then ret (Some ErrNotConnected)
  else
    let* _ := disconnect None in
    ret None.

(** [enqueuePacket].  [taken] tells whether the writer fiber receives the
    packet before [QueueWriteTimeout] has passed; the send on the
    unbuffered channel [c.writeQueue] can only take place while a writer
    fiber is running. *)
Definition enqueuePacket (p : ClientPacket) (createMailbox : bool)
    (taken : bool) : M (option error) :=
  let* w := gets writerRunning in
  if w && taken
  then
    let* _ := modify (emit (EvQueued p)) in
    let* _ :=
      (if createMailbox
       then
         let* q := gets readQueue in
         let* _ := modify (set_readQueue (<[ID p := tt]> q)) in
         modify (emit (EvMailboxCreated (ID p)))
       else ret tt) in
    ret None
  else
    ret (errors.Wrap (Some ErrQueueTimeout) "packet queue operation timed out").

(** [getResponse].  [delivered] is the packet that the reader fiber puts
    into the mailbox before [QueueReadTimeout] has passed, if any; a
    receive from the nil channel of a missing map entry never takes place.
    The deferred function closes and deletes the mailbox; closing the nil
    channel of a missing entry panics. *)
Definition getResponse (packetID : Z) (delivered : option ClientPacket)
  : M (ClientPacket + error) :=
  let* q := gets readQueue in
  let result : ClientPacket + error :=
    match q !! packetID, delivered with
    | Some _, Some p => inl p
    | _, _ => inr (withMessage ErrReadTimeout "mailbox read operation timed out")
    end in
  match q !! packetID with
  | None => panic "close of nil channel"
  | Some _ =>
      let* _ := modify (set_readQueue (delete packetID q)) in
      let* _ := modify (emit (EvMailboxRemoved packetID)) in
      ret result
  end.

(** What the fibers do during one [ExecCommand]. *)
Record ExecEnv : Type := mkExecEnv {
  taken : bool;
  delivered : option ClientPacket
}.

Definition ExecCommand (fuel : nat) (command : list byte) (env : ExecEnv)
  : M (list byte * option error) :=
  let* p := newClientPacket fuel TypeCommand command in
  let* err := enqueuePacket p true (taken env) in
  match err with
  | Some err =>
      ret ([], errors.Wrap (Some err) "could not enqueue command packet")
  | None =>
      let* r := getResponse (ID p) (delivered env) in
      match r with
      | inr err =>
          ret ([], errors.Wrap (Some err) "could not get command response")
      | inl res =>
          let body := Body res in
          let body := firstn (length body - 1) body in
          ret (body, None)
      end
  end.

Definition ExecCommandNoResponse (fuel : nat) (command : list byte)
    (taken : bool) : M (option error) :=
  let* p := newClientPacket fuel TypeCommand command in
  let* err := enqueuePacket p false taken in
  match err with
  | Some err => ret (errors.Wrap (Some err) "could not enqueue command packet")
  | None => ret None
  end.

(** One turn of the [select] of [startWriter]: the writer returns when the
    termination channel is closed, and otherwise sends the packet [p] that
    it has received from the queue. *)
Definition writerTurn (received : option (ClientPacket * option ioerror))
  : M unit :=
  let* closed := gets terminate in
  match received with
  | Some (p, werr) =>
      let* _ := sendPacket p werr in ret tt
  | None =>
      if closed then modify (set_writerRunning false) else ret tt
  end.

(** One turn of the outer loop of [startReader] after the test of the
    flag: a read without deadline, then the dispatch on its result.
    [dispatched] tells whether the inner fiber receives the packet from
    [readChan] before [QueueWriteTimeout] has passed. *)
Definition readerTurn (env : ReadEnv) (dispatched : bool) : M unit :=
  let* r := readPacket env in
  match r with
  | inr err =>
      match errors.Cause err with
      | ErrNotConnected => ret tt
      | Io EOF => disconnect (Some err)
      | Io ErrClosedPipe => disconnect (Some err)
      | _ => ret tt
      end
  | inl p =>
      let* isBroadcast := gets (fun s => BroadcastChecker s p) in
      if isBroadcast
      then
        let* h := gets hasBroadcastHandler in
        if h
        then
          let newBody := Body p in
          let newBody := firstn (length newBody - 1) newBody in
          modify (emit (EvBroadcastHandler newBody))
        else ret tt
      else
        if dispatched then modify (emit (EvToDispatcher p)) else ret tt
  end.

End rcon.

(** ** Package presets *)

Module presets.
Import packet.

Definition MordhauRestrictedPacketIDs : list Z :=
  [54321; 54322; 54323; 54324; 54325; 54326; 54327; 54328; 54329; 54330].

Definition MordhauBroadcastChecker (p : ClientPacket) : bool :=
  (fix loop (ids : list Z) : bool :=
     match ids with
     | v :: ids' => if v =? ID p then true else loop ids'
     | [] => false
     end) MordhauRestrictedPacketIDs.

End presets.

(** * Notions used in the statements

    Predicates on byte strings and traces, the frames and sessions of the
    examples, and the operations of a session as data. *)

Section Notions.
Import packet rcon.

(** The value of the leading size field of a frame. *)
Definition sizeField (order : endian.Mode) (frame : list byte) : Z :=
  int32 (binary.Uint32 order (firstn 4 frame)).

(** [l] does not begin with [c]; [l] does not end with [c]. *)
Definition no_lead (c : byte) (l : list byte) : Prop :=
  match l with
  | b :: _ => b <> c
  | [] => True
  end.

Definition no_trail (c : byte) (l : list byte) : Prop := no_lead c (rev l).

(** The size announced by the first four bytes of a stream, and the length
    that the decoder computes from it. *)
Definition announcedSize (m : endian.Mode) (r : Reader) : Z :=
  sizeField m (pending r).

Definition bodyLenOf (size : Z) : Z := int32 (int32 (size - 4) - 4).

(** A frame: the three header words and the raw body bytes. *)
Definition frame (m : endian.Mode) (size i t : Z) (raw : list byte)
  : list byte :=
  binary.PutUint32 m size ++ binary.PutUint32 m i ++ binary.PutUint32 m t
  ++ raw.

(** The packet of the test suite (packet_test.go) and its encoding. *)
Definition hello : list byte := list_byte_of_string "Hello, world!".

Definition helloPacket : ClientPacket :=
  mkClientPacket endian.Little TypeCommand hello 1.

Definition rawPacket : list byte :=
  [Byte.x17; Byte.x00; Byte.x00; Byte.x00; Byte.x01; Byte.x00; Byte.x00;
   Byte.x00; Byte.x02; Byte.x00; Byte.x00; Byte.x00; Byte.x48; Byte.x65;
   Byte.x6c; Byte.x6c; Byte.x6f; Byte.x2c; Byte.x20; Byte.x77; Byte.x6f;
   Byte.x72; Byte.x6c; Byte.x64; Byte.x21; Byte.x00; Byte.x00].

(** A command packet with a body of 2038 bytes. *)
Definition oversized : ClientPacket :=
  mkClientPacket endian.Little TypeCommand (repeat Byte.x61 2038) 1.

(** A command packet whose body has 2^32 - 10 bytes. *)
Definition hugeBody : list byte := repeat Byte.x61 (Z.to_nat 4294967286).

Definition hugePacket : ClientPacket :=
  mkClientPacket endian.Little TypeCommand hugeBody 1.

(** The trimming as the specification words it: the trailing null bytes
    are stripped, then the trailing newline bytes, and nothing else. *)
Definition spec_trim (raw : list byte) : list byte :=
  bytes.trimRightByte (bytes.trimRightByte raw NUL) LF.

(** A frame whose body bytes are a newline, the letter a and two nulls. *)
Definition leadingNewlineFrame : list byte :=
  frame endian.Little 12 1 TypeCommandRes [LF; Byte.x61; NUL; NUL].

(** The legal IDs. *)
Definition legalID (n : Z) : Prop := 1 <= n <= MaxInt32 - 1.

(** The number of steps from [n] forward to [x] around the cycle
    1, 2, ..., MaxInt32 - 1, 1, ... *)
Definition stepsTo (x n : Z) : Z :=
  if n <=? x then x - n else x - n + (MaxInt32 - 1).

(** The values that the counter takes: 0 at the start, and then the
    results of the allocations. *)
Inductive reachable : Z -> Prop :=
| reachable_start : reachable 0
| reachable_next (fuel : nat) (R : list Z) (n v : Z) :
    reachable n -> getNextID fuel R n = Some v -> reachable v.

(** A configuration with a password and a disconnect handler, and the
    defaults otherwise. *)
Definition sampleConfig : Config :=
  mkConfig (list_byte_of_string "RconPassword") None [] None false true.

(** The server answers the AUTH packet with an empty packet of type 0
    ([TypeCommandRes]) that carries the ID of the request. *)
Definition valueResponse : ReadEnv :=
  mkReadEnv None
    (mkReader (fst (Build (mkClientPacket endian.Little TypeCommandRes [] 1)))
       EOF).

Definition valueResponseEnv : ConnectEnv :=
  mkConnectEnv None true None None valueResponse.

(** The server answers with an auth response that carries the ID of the
    request: the password is accepted. *)
Definition grantedEnv : ConnectEnv :=
  mkConnectEnv None true None None
    (mkReadEnv None
       (mkReader (fst (Build (mkClientPacket endian.Little TypeAuthRes [] 1)))
          EOF)).

(** The server answers with an auth response that carries the ID -1. *)
Definition refusedEnv : ConnectEnv :=
  mkConnectEnv None true None None
    (mkReadEnv None
       (mkReader (fst (Build (mkClientPacket endian.Little TypeAuthRes [] (-1))))
          EOF)).

(** The counter and the restricted IDs of a state let the allocator
    return. *)
Definition canAllocate (s : State) : Prop :=
  0 <= nextClientPacketID s <= MaxInt32 - 1
  /\ exists x : Z, legalID x /\ idInArr (RestrictedPacketIDs s) x = false.

(** The two errors of [ExecCommand], with the annotations of
    [enqueuePacket] and [getResponse] and of [ExecCommand] itself. *)
Definition queueTimeout : error :=
  withMessage
    (withMessage ErrQueueTimeout "packet queue operation timed out")
    "could not enqueue command packet".

Definition readTimeout : error :=
  withMessage
    (withMessage ErrReadTimeout "mailbox read operation timed out")
    "could not get command response".

(** The events of one [ExecCommand] for the packet [p]. *)
Definition execEvents (handedOff : bool) (p : ClientPacket) : list Event :=
  if handedOff
  then [EvQueued p; EvMailboxCreated (ID p); EvMailboxRemoved (ID p)]
  else [].

(** The session after a successful [Connect], and after [Close] and the
    exit of the writer. *)
Definition connected : State :=
  final_state (Connect 1 grantedEnv (NewClient sampleConfig 0)).

Definition closed : State :=
  final_state (writerTurn None (final_state (Close connected))).

Definition status : list byte := list_byte_of_string "status".

(** Kinds of events. *)
Definition isQueued (e : Event) : bool :=
  match e with EvQueued _ => true | _ => false end.

Definition isMailboxCreated (e : Event) : bool :=
  match e with EvMailboxCreated _ => true | _ => false end.

(** The place of the first event of a kind in a trace. *)
Fixpoint position (f : Event -> bool) (tr : list Event) : option nat :=
  match tr with
  | [] => None
  | e :: tr' =>
      if f e then Some 0%nat
      else match position f tr' with
           | Some k => Some (S k)
           | None => None
           end
  end.

(** The response of the server to the command with the ID 2. *)
Definition okResponse : ClientPacket :=
  mkClientPacket endian.Little TypeCommandRes (list_byte_of_string "ok") 2.

Definition isTerminate (e : Event) : bool :=
  match e with EvTerminate => true | _ => false end.

Definition isDisconnectHandler (e : Event) : bool :=
  match e with EvDisconnectHandler _ _ => true | _ => false end.

(** The number of events of a kind in a trace. *)
Fixpoint count (f : Event -> bool) (tr : list Event) : nat :=
  match tr with
  | [] => 0%nat
  | e :: tr' => ((if f e then 1 else 0) + count f tr')%nat
  end.

(** The invariant of a session: the termination channel has been closed
    as often as the trace says, that is once if it is closed and never if
    it is open, and the disconnect handler has run at most as often. *)
Definition fired (s : State) : Prop :=
  count isTerminate (trace s) = (if terminate s then 1 else 0)%nat
  /\ (count isDisconnectHandler (trace s) <= count isTerminate (trace s))%nat.

(** A computation that keeps the invariant, however it ends. *)
Definition preserves {A : Type} (m : M A) : Prop :=
  forall s : State, fired s -> fired (final_state (m s)).

(** A change of the state that leaves the termination channel and the two
    counts as they are. *)
Definition quiet (f : State -> State) : Prop :=
  forall s : State,
    terminate (f s) = terminate s
    /\ count isTerminate (trace (f s)) = count isTerminate (trace s)
    /\ count isDisconnectHandler (trace (f s))
       = count isDisconnectHandler (trace s).

(** What happens to a session, one call or one turn of a fiber at a
    time.  [OpLateDisconnect] is the call of [disconnect] by a fiber that
    made its test of the connection before another fiber shut the session
    down. *)
Inductive Op : Type :=
| OpConnect (fuel : nat) (env : ConnectEnv)
| OpClose
| OpExecCommand (fuel : nat) (command : list byte) (env : ExecEnv)
| OpExecCommandNoResponse (fuel : nat) (command : list byte) (taken : bool)
| OpSetDisconnectHandler (handler : bool)
| OpWriterTurn (received : option (ClientPacket * option ioerror))
| OpReaderTurn (env : ReadEnv) (dispatched : bool)
| OpLateDisconnect (err : option error).

(** The computation of an operation. *)
Definition step (op : Op) : M unit :=
  match op with
  | OpConnect fuel env => let* _ := Connect fuel env in ret tt
  | OpClose => let* _ := Close in ret tt
  | OpExecCommand fuel command env =>
      let* _ := ExecCommand fuel command env in ret tt
  | OpExecCommandNoResponse fuel command taken =>
      let* _ := ExecCommandNoResponse fuel command taken in ret tt
  | OpSetDisconnectHandler handler => SetDisconnectHandler handler
  | OpWriterTurn received => writerTurn received
  | OpReaderTurn env dispatched => readerTurn env dispatched
  | OpLateDisconnect err => disconnect err
  end.

(** The state after a sequence of operations.  A panic ends the process;
    a caller stuck in the allocator leaves the other fibers running. *)
Fixpoint run (ops : list Op) (s : State) : State :=
  match ops with
  | [] => s
  | op :: ops' =>
      match step op s with
      | Returns _ s' => run ops' s'
      | Panics _ s' => s'
      | Diverges s' => run ops' s'
      end
  end.

(** [k] moves of the counter in a row. *)
Definition advanceN (k : nat) (n : Z) : Z := Nat.iter k advance n.

(** The counter after [k] allocations in a row. *)
Fixpoint allocations (fuel k : nat) (R : list Z) (n : Z) : option Z :=
  match k with
  | O => Some n
  | S k' =>
      match getNextID fuel R n with
      | Some v => allocations fuel k' R v
      | None => None
      end
  end.

(** The events of a shutdown with the error [err]. *)
Definition shutdownEvents (handler : bool) (err : option error)
  : list Event :=
  [EvTerminate; EvSocketClose]
  ++ (if handler
      then [EvDisconnectHandler err
              (match err with None => true | Some _ => false end)]
      else []).

(** [s'] has the connection, the channels, the fibers and the mailboxes
    of [s]. *)
Definition untouched (s s' : State) : Prop :=
  conn s' = conn s /\ terminate s' = terminate s
  /\ writerRunning s' = writerRunning s /\ readQueue s' = readQueue s
  /\ hasDisconnectHandler s' = hasDisconnectHandler s.

(** The connected session with the broadcast checker and the restricted
    IDs of the Mordhau preset and a broadcast handler. *)
Definition mordhauConfig : Config :=
  mkConfig (list_byte_of_string "RconPassword") None
    presets.MordhauRestrictedPacketIDs (Some presets.MordhauBroadcastChecker)
    true true.

Definition mordhauSession : State :=
  final_state (Connect 1 grantedEnv (NewClient mordhauConfig 0)).

(** A chat broadcast of the server. *)
Definition chatBroadcast : ClientPacket :=
  mkClientPacket endian.Little TypeCommandRes
    (list_byte_of_string "Chat: hello") 54325.

End Notions.

(** * Properties *)

(** ** Arithmetic of [int32] *)

Lemma int32_id (z : Z) : in_int32 z -> int32 z = z.
Proof.
  unfold in_int32, MinInt32, MaxInt32, int32. intros H.
  rewrite Z.mod_small; lia.
Qed.

Lemma int32_range (z : Z) : in_int32 (int32 z).
Proof.
  unfold in_int32, MinInt32, MaxInt32, int32.
  pose proof (Z.mod_pos_bound (z + 2 ^ 31) (2 ^ 32)). lia.
Qed.

Lemma int32_mod (z : Z) : int32 (z mod 2 ^ 32) = int32 z.
Proof.
  unfold int32. now rewrite Zplus_mod_idemp_l.
Qed.

Lemma int32_idem (z : Z) : int32 (int32 z) = int32 z.
Proof. apply int32_id, int32_range. Qed.

(** ** Byte order *)

Lemma length_PutUint32 (order : endian.Mode) (v : Z) :
  length (binary.PutUint32 order v) = 4%nat.
Proof.
  destruct order; unfold binary.PutUint32;
    rewrite ?length_rev; apply length_le_split.
Qed.

Lemma Uint32_PutUint32 (order : endian.Mode) (v : Z) :
  binary.Uint32 order (binary.PutUint32 order v) = v mod 2 ^ 32.
Proof.
  destruct order; unfold binary.Uint32, binary.PutUint32;
    rewrite ?rev_involutive; apply (le_combine_split 4).
Qed.

(** ** Reading from a stream *)

Lemma ReadFull_app (bs tl : list byte) (e : ioerror) :
  ReadFull (mkReader (bs ++ tl) e) (length bs) = inl (bs, mkReader tl e).
Proof.
  unfold ReadFull. destruct bs as [|b bs]; [reflexivity|].
  cbn [pending closing].
  replace (length (b :: bs) =? 0)%nat with false by reflexivity.
  replace (length (b :: bs) <=? length ((b :: bs) ++ tl))%nat with true.
  - now rewrite take_app_length, drop_app_length.
  - symmetry. apply Nat.leb_le. rewrite length_app. lia.
Qed.

Lemma Read_PutUint32 (order : endian.Mode) (v : Z) (tl : list byte)
    (e : ioerror) :
  binaryRead.Read (mkReader (binary.PutUint32 order v ++ tl) e) order
  = inl (int32 v, mkReader tl e).
Proof.
  unfold binaryRead.Read.
  pose proof (ReadFull_app (binary.PutUint32 order v) tl e) as H.
  rewrite length_PutUint32 in H. rewrite H.
  now rewrite Uint32_PutUint32, int32_mod.
Qed.

Lemma int32_add_l (a b : Z) : int32 (int32 a + b) = int32 (a + b).
Proof.
  unfold int32.
  replace ((a + 2 ^ 31) mod 2 ^ 32 - 2 ^ 31 + b + 2 ^ 31)
    with ((a + 2 ^ 31) mod 2 ^ 32 + b) by lia.
  rewrite Zplus_mod_idemp_l. do 2 f_equal. lia.
Qed.

Lemma int32_add_r (a b : Z) : int32 (a + int32 b) = int32 (a + b).
Proof. now rewrite Z.add_comm, int32_add_l, Z.add_comm. Qed.

Lemma int32_sub_l (a b : Z) : int32 (int32 a - b) = int32 (a - b).
Proof. unfold Z.sub. apply int32_add_l. Qed.

(** ** The encoder *)

Section Encoder.
Import packet.

Lemma Build_bytes (p : ClientPacket) :
  fst (Build p)
  = binary.PutUint32 (mode p) (Size p) ++ binary.PutUint32 (mode p) (id p)
    ++ binary.PutUint32 (mode p) (pType p) ++ body p ++ [NUL; NUL].
Proof.
  unfold Build, binary.Write, binary.encode, Body, ID, Type_. cbn [fst].
  rewrite app_nil_l, <- !app_assoc. reflexivity.
Qed.

Lemma Build_no_error (p : ClientPacket) : snd (Build p) = None.
Proof. reflexivity. Qed.

Lemma Build_length (p : ClientPacket) :
  Z.of_nat (length (fst (Build p))) = Z.of_nat (length (body p)) + 14.
Proof.
  rewrite Build_bytes, !length_app, !length_PutUint32. cbn [length]. lia.
Qed.

Lemma Size_wraps (p : ClientPacket) :
  Size p = int32 (Z.of_nat (length (body p)) + 10).
Proof.
  unfold Size, Body, int32Bytes, endPadBytes.
  rewrite length_app. cbn [length].
  rewrite int32_add_l, <- Z.add_assoc, int32_add_l.
  rewrite (Z.add_comm (4 + 4)), <- Z.add_assoc, int32_add_l.
  f_equal. lia.
Qed.

Lemma Size_small (p : ClientPacket) :
  Z.of_nat (length (body p)) + 10 <= MaxInt32 ->
  Size p = Z.of_nat (length (body p)) + 10.
Proof.
  intros H. rewrite Size_wraps. apply int32_id.
  unfold in_int32, MinInt32, MaxInt32 in *. lia.
Qed.

Lemma sizeField_Build (p : ClientPacket) :
  sizeField (mode p) (fst (Build p)) = Size p.
Proof.
  unfold sizeField. rewrite Build_bytes.
  rewrite take_app_length' by (now rewrite length_PutUint32).
  rewrite Uint32_PutUint32, int32_mod. unfold Size. apply int32_idem.
Qed.

End Encoder.

Section LegacyEncoder.
Import payload.

Lemma buildPacketFromPayload_buffer (p : payload) :
  buildPacketFromPayload p
  = let buffer :=
      binary.PutUint32 endian.Little (getSize p)
      ++ binary.PutUint32 endian.Little (ID p)
      ++ binary.PutUint32 endian.Little (Type_ p) ++ Body p ++ [NUL; NUL] in
    if Z.of_nat (length buffer) >=? payloadMaxSize
    then ([], Some (Errorf "payload too large, max size is: 2048"))
    else (buffer, None).
Proof.
  unfold buildPacketFromPayload, binary.Write, binary.encode. cbn [fst].
  rewrite app_nil_l, <- !app_assoc. reflexivity.
Qed.

Lemma legacy_buffer_length (p : payload) :
  Z.of_nat (length (binary.PutUint32 endian.Little (getSize p)
      ++ binary.PutUint32 endian.Little (ID p)
      ++ binary.PutUint32 endian.Little (Type_ p) ++ Body p ++ [NUL; NUL]))
  = Z.of_nat (length (Body p)) + 14.
Proof.
  rewrite !length_app, !length_PutUint32. cbn [length]. lia.
Qed.

(** The older builder refuses a frame of 2048 bytes or more. *)
Lemma buildPacketFromPayload_too_large (p : payload) :
  2048 <= Z.of_nat (length (Body p)) + 14 ->
  buildPacketFromPayload p
  = ([], Some (Errorf "payload too large, max size is: 2048")).
Proof.
  intros H. rewrite buildPacketFromPayload_buffer. cbv zeta.
  rewrite legacy_buffer_length. unfold payloadMaxSize.
  destruct (Z.geb_spec (Z.of_nat (length (Body p)) + 14) 2048); [reflexivity|lia].
Qed.

Lemma buildPacketFromPayload_fits (p : payload) :
  Z.of_nat (length (Body p)) + 14 < 2048 ->
  buildPacketFromPayload p
  = (binary.PutUint32 endian.Little (getSize p)
      ++ binary.PutUint32 endian.Little (ID p)
      ++ binary.PutUint32 endian.Little (Type_ p) ++ Body p ++ [NUL; NUL], None).
Proof.
  intros H. rewrite buildPacketFromPayload_buffer. cbv zeta.
  rewrite legacy_buffer_length. unfold payloadMaxSize.
  destruct (Z.geb_spec (Z.of_nat (length (Body p)) + 14) 2048); [lia|reflexivity].
Qed.

End LegacyEncoder.

(** ** Trimming *)

Section Trim.
Import bytes.

Lemma trimLeftByte_split (s : list byte) (c : byte) :
  exists n : nat, s = repeat c n ++ trimLeftByte s c.
Proof.
  induction s as [|b s IH]; [now exists 0%nat|].
  cbn [trimLeftByte]. destruct (Byte.eqb b c) eqn:E.
  - apply Byte.byte_dec_bl in E. subst b. destruct IH as [n IH].
    exists (S n). cbn [repeat app]. now rewrite <- IH.
  - now exists 0%nat.
Qed.

Lemma trimLeftByte_no_lead (s : list byte) (c : byte) :
  no_lead c (trimLeftByte s c).
Proof.
  induction s as [|b s IH]; [exact I|].
  cbn [trimLeftByte]. destruct (Byte.eqb b c) eqn:E; [exact IH|].
  cbn [no_lead]. now apply Byte.eqb_false.
Qed.

Lemma trimLeftByte_id (s : list byte) (c : byte) :
  no_lead c s -> trimLeftByte s c = s.
Proof.
  destruct s as [|b s]; [reflexivity|]. cbn [no_lead trimLeftByte]. intros H.
  destruct (Byte.eqb b c) eqn:E; [|reflexivity].
  apply Byte.byte_dec_bl in E. contradiction.
Qed.

Lemma trimLeftByte_repeat (n : nat) (s : list byte) (c : byte) :
  trimLeftByte (repeat c n ++ s) c = trimLeftByte s c.
Proof.
  induction n as [|n IH]; [reflexivity|].
  cbn [repeat app trimLeftByte]. now rewrite (Byte.byte_dec_lb eq_refl).
Qed.

Lemma rev_repeat (c : byte) (n : nat) : rev (repeat c n) = repeat c n.
Proof.
  induction n as [|n IH]; [reflexivity|].
  cbn [repeat rev]. rewrite IH. symmetry. apply repeat_cons.
Qed.

Lemma trimRightByte_split (s : list byte) (c : byte) :
  exists n : nat, s = trimRightByte s c ++ repeat c n.
Proof.
  destruct (trimLeftByte_split (rev s) c) as [n H].
  exists n. unfold trimRightByte.
  rewrite <- (rev_involutive s), H at 1.
  now rewrite rev_app_distr, rev_repeat.
Qed.

Lemma trimRightByte_no_trail (s : list byte) (c : byte) :
  no_trail c (trimRightByte s c).
Proof.
  unfold no_trail, trimRightByte. rewrite rev_involutive.
  apply trimLeftByte_no_lead.
Qed.

Lemma no_trail_suffix (c : byte) (a b : list byte) :
  no_trail c (a ++ b) -> no_trail c b.
Proof.
  unfold no_trail. rewrite rev_app_distr.
  destruct (rev b) as [|x l]; [intros _; exact I|]. intros H. exact H.
Qed.

(** [bytes.Trim] takes away a run of [c] at either end, and what is left
    neither begins nor ends with [c]. *)
Lemma Trim_split (s : list byte) (c : byte) :
  exists i j : nat,
    s = repeat c i ++ Trim s c ++ repeat c j
    /\ no_lead c (Trim s c) /\ no_trail c (Trim s c).
Proof.
  destruct (trimRightByte_split s c) as [j Hj].
  destruct (trimLeftByte_split (trimRightByte s c) c) as [i Hi].
  exists i, j. unfold Trim. repeat split.
  - rewrite app_assoc, <- Hi. exact Hj.
  - apply trimLeftByte_no_lead.
  - apply (no_trail_suffix c (repeat c i)). rewrite <- Hi.
    apply trimRightByte_no_trail.
Qed.

Lemma Trim_id (s : list byte) (c : byte) :
  no_lead c s -> no_trail c s -> Trim s c = s.
Proof.
  intros Hl Ht. unfold Trim, trimRightByte.
  rewrite (trimLeftByte_id (rev s)) by exact Ht.
  rewrite rev_involutive. now apply trimLeftByte_id.
Qed.

Lemma Forall_no_lead (c : byte) (s : list byte) :
  Forall (fun b => b <> c) s -> no_lead c s.
Proof. destruct 1; [exact I|assumption]. Qed.

Lemma Forall_no_trail (c : byte) (s : list byte) :
  Forall (fun b => b <> c) s -> no_trail c s.
Proof. intros H. apply Forall_no_lead, Forall_rev, H. Qed.

(** A body without [c], followed by a run of [c], is trimmed back to the
    body. *)
Lemma Trim_padded (s : list byte) (c : byte) (n : nat) :
  Forall (fun b => b <> c) s -> Trim (s ++ repeat c n) c = s.
Proof.
  intros H. unfold Trim, trimRightByte.
  rewrite rev_app_distr, rev_repeat, trimLeftByte_repeat.
  rewrite (trimLeftByte_id (rev s)) by now apply Forall_no_trail.
  rewrite rev_involutive. now apply trimLeftByte_id, Forall_no_lead.
Qed.

End Trim.

(** ** The decoder *)

Section Decoder.
Import packet.

Lemma ReadFull_enough (r : Reader) (n : nat) :
  (0 < n <= length (pending r))%nat ->
  ReadFull r n
  = inl (firstn n (pending r), mkReader (skipn n (pending r)) (closing r)).
Proof.
  intros [H0 Hn]. unfold ReadFull.
  destruct (Nat.eqb_spec n 0); [lia|].
  destruct (Nat.leb_spec n (length (pending r))); [reflexivity|lia].
Qed.

Lemma ReadFull_short (r : Reader) (n : nat) :
  (length (pending r) < n)%nat -> exists e, ReadFull r n = inr e.
Proof.
  intros H. unfold ReadFull.
  destruct (Nat.eqb_spec n 0); [lia|].
  destruct (Nat.leb_spec n (length (pending r))); [lia|].
  destruct (_ && _); eauto.
Qed.

Lemma Read_enough (r : Reader) (order : endian.Mode) :
  (4 <= length (pending r))%nat ->
  binaryRead.Read r order
  = inl (int32 (binary.Uint32 order (firstn 4 (pending r))),
         mkReader (skipn 4 (pending r)) (closing r)).
Proof.
  intros H. unfold binaryRead.Read. rewrite ReadFull_enough by lia. reflexivity.
Qed.

Lemma Read_short (r : Reader) (order : endian.Mode) :
  (length (pending r) < 4)%nat -> exists e, binaryRead.Read r order = inr e.
Proof.
  intros H. unfold binaryRead.Read.
  destruct (ReadFull_short r 4 H) as [e ->]. eauto.
Qed.

(** With its twelve header bytes at hand, the decoder goes on to the
    body. *)
Lemma DecodeClientPacket_header (m : endian.Mode) (r : Reader) :
  (12 <= length (pending r))%nat ->
  DecodeClientPacket m r
  = if bodyLenOf (announcedSize m r) <? 0 then DecodePanic
    else
      match ReadFull (mkReader (skipn 12 (pending r)) (closing r))
              (Z.to_nat (bodyLenOf (announcedSize m r))) with
      | inr err => DecodeErr err
      | inl (b, reader) =>
          Decoded
            (mkClientPacket m
               (int32 (binary.Uint32 m (firstn 4 (skipn 8 (pending r)))))
               (bytes.Trim (bytes.Trim b NUL) LF)
               (int32 (binary.Uint32 m (firstn 4 (skipn 4 (pending r))))))
            reader
      end.
Proof.
  intros H. unfold DecodeClientPacket.
  rewrite Read_enough by lia.
  rewrite Read_enough by (cbn [pending]; rewrite length_skipn; lia).
  cbn [pending closing]. rewrite drop_drop.
  rewrite Read_enough by (cbn [pending]; rewrite length_skipn; lia).
  cbn [pending closing]. rewrite drop_drop. reflexivity.
Qed.

(** A stream that ends inside the header makes the decoder return the
    error of the read. *)
Lemma DecodeClientPacket_truncated (m : endian.Mode) (r : Reader) :
  (length (pending r) < 12)%nat -> exists e, DecodeClientPacket m r = DecodeErr e.
Proof.
  intros H. unfold DecodeClientPacket.
  destruct (Nat.lt_ge_cases (length (pending r)) 4) as [H1|H1].
  { destruct (Read_short r m H1) as [e ->]. eauto. }
  rewrite Read_enough by lia.
  destruct (Nat.lt_ge_cases (length (pending r)) 8) as [H2|H2].
  { destruct (Read_short (mkReader (skipn 4 (pending r)) (closing r)) m)
      as [e ->]; [cbn [pending]; rewrite length_skipn; lia|eauto]. }
  rewrite Read_enough by (cbn [pending]; rewrite length_skipn; lia).
  cbn [pending closing]. rewrite drop_drop.
  destruct (Read_short (mkReader (skipn (4 + 4) (pending r)) (closing r)) m)
    as [e ->]; [cbn [pending]; rewrite length_skipn; lia|eauto].
Qed.

Lemma bodyLenOf_eq (size : Z) : bodyLenOf size = int32 (size - 8).
Proof.
  unfold bodyLenOf. rewrite int32_sub_l. f_equal. lia.
Qed.

(** Decoding a well-formed frame: the header words come back, and the
    body is trimmed twice. *)
Lemma DecodeClientPacket_frame (m : endian.Mode) (i t : Z)
    (raw tl : list byte) (e : ioerror) :
  in_int32 i -> in_int32 t -> Z.of_nat (length raw) + 8 <= MaxInt32 ->
  DecodeClientPacket m
    (mkReader (frame m (Z.of_nat (length raw) + 8) i t raw ++ tl) e)
  = Decoded (mkClientPacket m t (bytes.Trim (bytes.Trim raw NUL) LF) i)
      (mkReader tl e).
Proof.
  intros Hi Ht Hlen. unfold DecodeClientPacket, frame.
  rewrite <- !app_assoc.
  rewrite !Read_PutUint32.
  rewrite (int32_id i Hi), (int32_id t Ht).
  fold (bodyLenOf (int32 (Z.of_nat (length raw) + 8))).
  rewrite bodyLenOf_eq, int32_sub_l.
  replace (Z.of_nat (length raw) + 8 - 8) with (Z.of_nat (length raw)) by lia.
  rewrite int32_id by (unfold in_int32, MinInt32, MaxInt32 in *; lia).
  destruct (Z.ltb_spec (Z.of_nat (length raw)) 0); [lia|].
  rewrite Nat2Z.id, ReadFull_app. reflexivity.
Qed.

(** The older decoder on the same frame: it refuses an empty body and
    otherwise trims in the same way. *)
Lemma buildPayloadFromPacket_frame (i t : Z) (raw tl : list byte)
    (e : ioerror) :
  in_int32 i -> in_int32 t -> Z.of_nat (length raw) + 8 <= MaxInt32 ->
  payload.buildPayloadFromPacket
    (mkReader (frame endian.Little (Z.of_nat (length raw) + 8) i t raw ++ tl) e)
  = match raw with
    | [] => inr (Errorf "empty packet body received")
    | _ :: _ =>
        inl (payload.mkPayload i t (bytes.Trim (bytes.Trim raw NUL) LF),
             mkReader tl e)
    end.
Proof.
  intros Hi Ht Hlen. unfold payload.buildPayloadFromPacket, frame.
  rewrite <- !app_assoc.
  rewrite !Read_PutUint32.
  rewrite (int32_id i Hi), (int32_id t Ht).
  unfold payload.payloadIDBytes, payload.payloadTypeBytes.
  rewrite (int32_id (4 + 4)) by (unfold in_int32, MinInt32, MaxInt32; lia).
  rewrite int32_sub_l.
  replace (Z.of_nat (length raw) + 8 - (4 + 4)) with (Z.of_nat (length raw))
    by lia.
  rewrite int32_id by (unfold in_int32, MinInt32, MaxInt32 in *; lia).
  destruct raw as [|x raw]; [reflexivity|].
  destruct (Z.ltb_spec (Z.of_nat (length (x :: raw))) 1);
    [cbn [length] in *; lia|].
  rewrite Nat2Z.id, ReadFull_app. reflexivity.
Qed.

End Decoder.

(** ** The scenarios of the test suite (packet_test.go) *)

Section Scenarios.
Import packet.

Example Build_hello : Build helloPacket = (rawPacket, None).
Proof. reflexivity. Qed.

Example Size_hello : Size helloPacket = 23.
Proof. reflexivity. Qed.

Example Decode_hello :
  DecodeClientPacket endian.Little (mkReader rawPacket EOF)
  = Decoded helloPacket (mkReader [] EOF).
Proof. reflexivity. Qed.

Example getNextID_wrap : getNextID 1 [] (MaxInt32 - 1) = Some 1.
Proof. reflexivity. Qed.

Example getNextID_skip : getNextID 4 [10; 11; 12] 10 = Some 13.
Proof. reflexivity. Qed.

End Scenarios.

(** ** The frame-size limit *)

Section FrameSize.
Import packet.

(** [Build] has no test of the length: it returns the bytes and a nil error
    for every packet. *)
Lemma Build_never_fails (p : ClientPacket) :
  exists out : list byte,
    Build p = (out, None)
    /\ Z.of_nat (length out) = Z.of_nat (length (body p)) + 14.
Proof.
  exists (fst (Build p)). split.
  - rewrite (surjective_pairing (Build p)) at 1. now rewrite Build_no_error.
  - apply Build_length.
Qed.

(** C2 (the code departs from the claim): for a body of 2038 bytes the
    serialized length is 2052, beyond the limit of 2048, and yet [Build]
    returns the 2052 bytes with a nil error, where the claim asks for a
    frame-too-large error.  The older builder [buildPacketFromPayload]
    refuses the same body ([buildPacketFromPayload_too_large]). *)
Theorem Build_oversized_frame :
  length (body oversized) = 2038%nat
  /\ snd (Build oversized) = None
  /\ length (fst (Build oversized)) = 2052%nat
  /\ payload.buildPacketFromPayload
       (payload.mkPayload 1 TypeCommand (body oversized))
     = ([], Some (Errorf "payload too large, max size is: 2048")).
Proof.
  split; [reflexivity|]. split; [apply Build_no_error|].
  split; [vm_compute; reflexivity|].
  apply buildPacketFromPayload_too_large. cbn [payload.Body].
  change (length (body oversized)) with 2038%nat. lia.
Qed.

(** ** The size field *)

(** Within the range of [int32] the size field counts the bytes that
    follow it. *)
Lemma Build_size_field (p : ClientPacket) :
  Z.of_nat (length (body p)) + 10 <= MaxInt32 ->
  sizeField (mode p) (fst (Build p)) = Z.of_nat (length (fst (Build p))) - 4.
Proof.
  intros H. rewrite sizeField_Build, Size_small, Build_length by exact H. lia.
Qed.

Lemma Build_size_field_witness :
  sizeField endian.Little (fst (Build helloPacket))
  = Z.of_nat (length (fst (Build helloPacket))) - 4.
Proof. apply (Build_size_field helloPacket). vm_compute. discriminate. Defined.

(** In general the size field holds the count converted to [int32]. *)
Lemma Build_size_field_wraps (p : ClientPacket) :
  sizeField (mode p) (fst (Build p))
  = int32 (Z.of_nat (length (fst (Build p))) - 4).
Proof.
  rewrite sizeField_Build, Size_wraps, Build_length. f_equal. lia.
Qed.

(** The older builder only succeeds below 2048 bytes, where the size
    field is exact. *)
Lemma buildPacketFromPayload_size_field (p : payload.payload) (out : list byte) :
  payload.buildPacketFromPayload p = (out, None) ->
  sizeField endian.Little out = Z.of_nat (length out) - 4.
Proof.
  intros H.
  destruct (Z.lt_ge_cases (Z.of_nat (length (payload.Body p)) + 14) 2048) as [Hs|Hl].
  - rewrite buildPacketFromPayload_fits in H by exact Hs.
    apply (f_equal fst) in H. cbn [fst] in H. rewrite <- H.
    rewrite legacy_buffer_length. unfold sizeField.
    rewrite take_app_length' by (now rewrite length_PutUint32).
    rewrite Uint32_PutUint32, int32_mod. unfold payload.getSize.
    rewrite int32_idem.
    unfold payload.payloadIDBytes, payload.payloadTypeBytes,
      payload.payloadNullBytes.
    rewrite int32_id by (unfold in_int32, MinInt32, MaxInt32; lia). lia.
  - rewrite buildPacketFromPayload_too_large in H by lia. discriminate.
Qed.

Lemma length_hugeBody : Z.of_nat (length hugeBody) = 4294967286.
Proof.
  unfold hugeBody. rewrite repeat_length. apply Z2Nat.id. discriminate.
Qed.

(** C9 (the code departs from the claim): [Build] succeeds on a body of
    2^32 - 10 bytes; the encoded length is L = 2^32 + 4, so that L - 4 is
    2^32, but the size field holds 0, the sum having wrapped around in
    [Size].  The cause is the missing test of the length in [Build]. *)
Theorem Build_size_field_overflow :
  snd (Build hugePacket) = None
  /\ sizeField endian.Little (fst (Build hugePacket)) = 0
  /\ Z.of_nat (length (fst (Build hugePacket))) - 4 = 4294967296.
Proof.
  split; [apply Build_no_error|]. split.
  - pose proof (sizeField_Build hugePacket) as H.
    change (mode hugePacket) with endian.Little in H.
    rewrite H, Size_wraps.
    change (body hugePacket) with hugeBody. rewrite length_hugeBody.
    reflexivity.
  - rewrite Build_length.
    change (body hugePacket) with hugeBody. rewrite length_hugeBody.
    reflexivity.
Qed.

End FrameSize.

(** ** Trimming in the decoder *)

Section DecoderTrimming.
Import packet.

(** C5, counterexample: both decoders drop the newline in front of the
    body, which the trimming of trailing bytes alone would keep. *)
Lemma decode_drops_leading_newline :
  DecodeClientPacket endian.Little (mkReader leadingNewlineFrame EOF)
  = Decoded (mkClientPacket endian.Little TypeCommandRes [Byte.x61] 1)
      (mkReader [] EOF)
  /\ payload.buildPayloadFromPacket (mkReader leadingNewlineFrame EOF)
     = inl (payload.mkPayload 1 TypeCommandRes [Byte.x61], mkReader [] EOF)
  /\ spec_trim [LF; Byte.x61; NUL; NUL] = [LF; Byte.x61]
  /\ [Byte.x61] <> spec_trim [LF; Byte.x61; NUL; NUL].
Proof.
  split; [reflexivity|]. split; [reflexivity|]. split; [reflexivity|].
  discriminate.
Qed.

(** C5, as amended: for every frame, [DecodeClientPacket] returns a body
    obtained from the raw body bytes by slicing off all leading and all
    trailing null bytes, then all leading and all trailing newline bytes;
    the bytes in between come back unchanged.  The older decoder
    [buildPayloadFromPacket] returns the same body for a little-endian
    frame whose raw body is not empty. *)
Theorem DecodeClientPacket_trims_both_ends (m : endian.Mode) (i t : Z)
    (raw tl : list byte) (e : ioerror) :
  in_int32 i -> in_int32 t -> Z.of_nat (length raw) + 8 <= MaxInt32 ->
  exists (b mid : list byte) (n1 n2 k1 k2 : nat),
    DecodeClientPacket m
      (mkReader (frame m (Z.of_nat (length raw) + 8) i t raw ++ tl) e)
    = Decoded (mkClientPacket m t b i) (mkReader tl e)
    /\ (raw <> [] ->
        payload.buildPayloadFromPacket
          (mkReader
             (frame endian.Little (Z.of_nat (length raw) + 8) i t raw ++ tl) e)
        = inl (payload.mkPayload i t b, mkReader tl e))
    /\ raw = repeat NUL n1 ++ mid ++ repeat NUL n2
    /\ no_lead NUL mid /\ no_trail NUL mid
    /\ mid = repeat LF k1 ++ b ++ repeat LF k2
    /\ no_lead LF b /\ no_trail LF b.
Proof.
  intros Hi Ht Hlen.
  destruct (Trim_split raw NUL) as (n1 & n2 & Hraw & Hl & Hr).
  destruct (Trim_split (bytes.Trim raw NUL) LF) as (k1 & k2 & Hmid & Hl' & Hr').
  exists (bytes.Trim (bytes.Trim raw NUL) LF), (bytes.Trim raw NUL), n1, n2, k1, k2.
  split; [now apply DecodeClientPacket_frame|]. split; [|tauto].
  intros Hne. rewrite buildPayloadFromPacket_frame by assumption.
  destruct raw; [contradiction|reflexivity].
Qed.

Lemma DecodeClientPacket_trims_both_ends_witness :
  exists (b mid : list byte) (n1 n2 k1 k2 : nat),
    DecodeClientPacket endian.Little (mkReader (leadingNewlineFrame ++ []) EOF)
    = Decoded (mkClientPacket endian.Little TypeCommandRes b 1)
        (mkReader [] EOF)
    /\ ([LF; Byte.x61; NUL; NUL] <> [] ->
        payload.buildPayloadFromPacket
          (mkReader (leadingNewlineFrame ++ []) EOF)
        = inl (payload.mkPayload 1 TypeCommandRes b, mkReader [] EOF))
    /\ [LF; Byte.x61; NUL; NUL] = repeat NUL n1 ++ mid ++ repeat NUL n2
    /\ no_lead NUL mid /\ no_trail NUL mid
    /\ mid = repeat LF k1 ++ b ++ repeat LF k2
    /\ no_lead LF b /\ no_trail LF b.
Proof.
  apply (DecodeClientPacket_trims_both_ends endian.Little 1 TypeCommandRes
           [LF; Byte.x61; NUL; NUL] [] EOF);
    unfold in_int32, MinInt32, MaxInt32, TypeCommandRes; simpl; lia.
Defined.

(** ** Building and decoding *)

(** C6, counterexample: a body that begins with a newline has no null
    byte and is left alone by the trimming of trailing bytes, yet it does
    not come back from the round trip. *)
Lemma roundtrip_drops_leading_newline :
  let p := mkClientPacket endian.Little TypeCommand [LF; Byte.x68; Byte.x69] 1 in
  Z.of_nat (length (body p)) + 10 < 2048
  /\ Forall (fun b => b <> NUL) (body p)
  /\ DecodeClientPacket endian.Little (mkReader (fst (Build p)) EOF)
     = Decoded (mkClientPacket endian.Little TypeCommand [Byte.x68; Byte.x69] 1)
         (mkReader [] EOF)
  /\ spec_trim (body p) = body p
  /\ [Byte.x68; Byte.x69] <> spec_trim (body p).
Proof.
  cbv zeta. split; [reflexivity|]. split.
  - repeat constructor; discriminate.
  - split; [reflexivity|]. split; [reflexivity|discriminate].
Qed.

(** C6, as amended: for every mode, type, ID and body with
    [len(body) + 10 < 2048] and no null byte in the body, [Build] succeeds
    and decoding its bytes gives the same mode, type and ID, and the body
    without its leading and trailing newline bytes; a body that neither
    begins nor ends with a newline comes back unchanged. *)
Theorem Build_Decode_roundtrip (m : endian.Mode) (t i : Z) (b tl : list byte)
    (e : ioerror) :
  in_int32 t -> in_int32 i ->
  Z.of_nat (length b) + 10 < 2048 ->
  Forall (fun x => x <> NUL) b ->
  let p := mkClientPacket m t b i in
  snd (Build p) = None
  /\ DecodeClientPacket m (mkReader (fst (Build p) ++ tl) e)
     = Decoded (mkClientPacket m t (bytes.Trim b LF) i) (mkReader tl e)
  /\ (exists k1 k2 : nat,
         b = repeat LF k1 ++ bytes.Trim b LF ++ repeat LF k2
         /\ no_lead LF (bytes.Trim b LF) /\ no_trail LF (bytes.Trim b LF))
  /\ (no_lead LF b -> no_trail LF b -> bytes.Trim b LF = b).
Proof.
  intros Ht Hi Hlen Hnul p. split; [apply Build_no_error|]. split.
  - subst p. rewrite Build_bytes. cbn [mode id pType body].
    rewrite Size_small by (cbn [body]; unfold MaxInt32; lia). cbn [body].
    pose proof (DecodeClientPacket_frame m i t (b ++ [NUL; NUL]) tl e Hi Ht)
      as H.
    rewrite length_app in H. cbn [length] in H.
    replace (Z.of_nat (length b + 2) + 8) with (Z.of_nat (length b) + 10)
      in H by lia.
    unfold frame in H. rewrite <- !app_assoc in *.
    rewrite H by (unfold MaxInt32; lia).
    change [NUL; NUL] with (repeat NUL 2).
    now rewrite Trim_padded.
  - split.
    + destruct (Trim_split b LF) as (k1 & k2 & H). now exists k1, k2.
    + apply Trim_id.
Qed.

Lemma Build_Decode_roundtrip_witness :
  snd (Build helloPacket) = None
  /\ DecodeClientPacket endian.Little (mkReader (fst (Build helloPacket) ++ []) EOF)
     = Decoded (mkClientPacket endian.Little TypeCommand (bytes.Trim hello LF) 1)
         (mkReader [] EOF)
  /\ (exists k1 k2 : nat,
         hello = repeat LF k1 ++ bytes.Trim hello LF ++ repeat LF k2
         /\ no_lead LF (bytes.Trim hello LF) /\ no_trail LF (bytes.Trim hello LF))
  /\ (no_lead LF hello -> no_trail LF hello -> bytes.Trim hello LF = hello).
Proof.
  apply (Build_Decode_roundtrip endian.Little TypeCommand 1 hello [] EOF).
  - unfold in_int32, MinInt32, MaxInt32, TypeCommand. lia.
  - unfold in_int32, MinInt32, MaxInt32. lia.
  - simpl. lia.
  - repeat constructor; discriminate.
Defined.

End DecoderTrimming.

(** ** Panics of the decoder *)

Section DecoderPanics.
Import packet.

(** C10, counterexample: a stream that ends after a size field of 7.  The
    read of the ID meets the end of the stream and the decoder returns
    [EOF]; it does not panic. *)
Lemma decode_short_header_returns_error :
  let r := mkReader [Byte.x07; Byte.x00; Byte.x00; Byte.x00] EOF in
  announcedSize endian.Little r = 7
  /\ DecodeClientPacket endian.Little r = DecodeErr EOF
  /\ DecodeClientPacket endian.Little r <> DecodePanic.
Proof.
  cbv zeta. split; [reflexivity|]. split; [reflexivity|discriminate].
Qed.

(** C10, as amended: [DecodeClientPacket] panics exactly when the stream
    delivers the twelve header bytes and the announced size [s] satisfies
    [-2^31 + 8 <= s < 8] (the body length [s - 8] is then negative).  In
    every other case -- a header cut short, [s >= 8], or [s < -2^31 + 8],
    where [s - 8] wraps around to a positive length -- it returns a packet
    or an error. *)
Theorem DecodeClientPacket_panics_iff (m : endian.Mode) (r : Reader) :
  DecodeClientPacket m r = DecodePanic
  <-> (12 <= length (pending r))%nat
      /\ MinInt32 + 8 <= announcedSize m r < 8.
Proof.
  pose proof (int32_range (binary.Uint32 m (firstn 4 (pending r)))) as Hs.
  fold (sizeField m (pending r)) in Hs. fold (announcedSize m r) in Hs.
  unfold in_int32, MinInt32, MaxInt32 in Hs. unfold MinInt32.
  destruct (Nat.lt_ge_cases (length (pending r)) 12) as [Hshort|Hlong].
  - destruct (DecodeClientPacket_truncated m r Hshort) as [e ->].
    split; [discriminate|lia].
  - rewrite DecodeClientPacket_header by exact Hlong.
    rewrite bodyLenOf_eq. unfold int32.
    destruct (Z.lt_ge_cases (announcedSize m r) (-2147483648 + 8)) as [Hw|Hw].
    + replace ((announcedSize m r - 8 + 2 ^ 31) mod 2 ^ 32)
        with (announcedSize m r - 8 + 2 ^ 31 + 2 ^ 32).
      2:{ apply Z.mod_unique with (q := -1); lia. }
      destruct (Z.ltb_spec (announcedSize m r - 8 + 2 ^ 31 + 2 ^ 32 - 2 ^ 31) 0);
        [lia|].
      split; [|lia]. destruct (ReadFull _ _) as [[? ?]|?]; discriminate.
    + rewrite Z.mod_small by lia.
      destruct (Z.ltb_spec (announcedSize m r - 8 + 2 ^ 31 - 2 ^ 31) 0).
      * split; [lia|reflexivity].
      * split; [|lia]. destruct (ReadFull _ _) as [[? ?]|?]; discriminate.
Qed.

Lemma DecodeClientPacket_panics_iff_witness :
  DecodeClientPacket endian.Little
    (mkReader (frame endian.Little 7 1 0 []) EOF) = DecodePanic.
Proof.
  apply (proj2 (DecodeClientPacket_panics_iff endian.Little
                  (mkReader (frame endian.Little 7 1 0 []) EOF))).
  split; [simpl; lia|].
  replace (announcedSize _ _) with 7 by reflexivity. unfold MinInt32. lia.
Defined.

End DecoderPanics.

(** ** The ID allocator *)

Section Allocator.
Import packet.

Lemma advance_eq (n : Z) :
  0 <= n <= MaxInt32 - 1 ->
  advance n = if n =? MaxInt32 - 1 then 1 else n + 1.
Proof.
  intros H. unfold advance.
  rewrite int32_id by (unfold in_int32, MinInt32, MaxInt32 in *; lia).
  destruct (Z.eqb_spec (n + 1) MaxInt32), (Z.eqb_spec n (MaxInt32 - 1));
    try reflexivity; lia.
Qed.

Lemma advance_legal (n : Z) : 0 <= n <= MaxInt32 - 1 -> legalID (advance n).
Proof.
  intros H. rewrite advance_eq by exact H. unfold legalID.
  destruct (Z.eqb_spec n (MaxInt32 - 1)); unfold MaxInt32 in *; lia.
Qed.

Lemma legalID_counter (n : Z) : legalID n -> 0 <= n <= MaxInt32 - 1.
Proof. unfold legalID. lia. Qed.

(** Whatever the loop returns is a legal ID outside the restricted ones. *)
Lemma skipRestricted_sound (fuel : nat) (R : list Z) (n v : Z) :
  legalID n -> skipRestricted fuel R n = Some v ->
  legalID v /\ idInArr R v = false.
Proof.
  revert n. induction fuel as [|fuel IH]; intros n Hn; [discriminate|].
  cbn [skipRestricted]. destruct (idInArr R n) eqn:E.
  - apply IH, advance_legal, legalID_counter, Hn.
  - intros [= <-]. now split.
Qed.

Lemma stepsTo_advance (x n : Z) :
  legalID x -> legalID n -> n <> x ->
  stepsTo x (advance n) = stepsTo x n - 1.
Proof.
  unfold legalID, stepsTo. intros Hx Hn Hne.
  rewrite advance_eq by lia.
  destruct (Z.eqb_spec n (MaxInt32 - 1)), (Z.leb_spec n x);
    match goal with
    | |- context [?a <=? x] => destruct (Z.leb_spec a x)
    end; unfold MaxInt32 in *; lia.
Qed.

(** With a legal ID [x] outside [R] ahead, the loop ends within
    [stepsTo x n + 1] turns. *)
Lemma skipRestricted_terminates (R : list Z) (x : Z) (d : nat) :
  legalID x -> idInArr R x = false ->
  forall n : Z, legalID n -> stepsTo x n = Z.of_nat d ->
  exists v : Z,
    forall fuel : nat, (d < fuel)%nat -> skipRestricted fuel R n = Some v.
Proof.
  intros Hx HR. induction d as [|d IH]; intros n Hn Hd.
  - assert (n = x) as ->.
    { unfold stepsTo, legalID in *. destruct (Z.leb_spec n x); lia. }
    exists x. intros [|fuel] Hf; [lia|]. cbn [skipRestricted]. now rewrite HR.
  - destruct (idInArr R n) eqn:E.
    + assert (n <> x) as Hne by (intros ->; congruence).
      destruct (IH (advance n)) as [v Hv].
      * apply advance_legal, legalID_counter, Hn.
      * rewrite stepsTo_advance by assumption. lia.
      * exists v. intros [|fuel] Hf; [lia|]. cbn [skipRestricted].
        rewrite E. apply Hv. lia.
    + exists n. intros [|fuel] Hf; [lia|]. cbn [skipRestricted]. now rewrite E.
Qed.

Lemma stepsTo_nonneg (x n : Z) : legalID x -> legalID n -> 0 <= stepsTo x n.
Proof.
  unfold legalID, stepsTo. intros Hx Hn. destruct (Z.leb_spec n x); lia.
Qed.

(** The allocator returns: from a counter in [0, MaxInt32 - 1] and with a
    legal ID outside [R], enough fuel gives a result, which is a legal ID
    outside [R]. *)
Lemma getNextID_terminates (R : list Z) (n : Z) :
  0 <= n <= MaxInt32 - 1 ->
  (exists x : Z, legalID x /\ idInArr R x = false) ->
  exists (v : Z) (fuel0 : nat),
    (forall fuel : nat, (fuel0 <= fuel)%nat -> getNextID fuel R n = Some v)
    /\ legalID v /\ idInArr R v = false.
Proof.
  intros Hn (x & Hx & HR).
  pose proof (advance_legal n Hn) as Ha.
  destruct (skipRestricted_terminates R x (Z.to_nat (stepsTo x (advance n)))
              Hx HR (advance n) Ha) as [v Hv].
  { rewrite Z2Nat.id; [reflexivity|now apply stepsTo_nonneg]. }
  exists v, (S (Z.to_nat (stepsTo x (advance n)))). split.
  - intros fuel Hf. apply Hv. lia.
  - apply (skipRestricted_sound (S (Z.to_nat (stepsTo x (advance n)))) R
             (advance n)); [exact Ha|]. apply Hv. lia.
Qed.

Lemma reachable_counter (n : Z) : reachable n -> 0 <= n <= MaxInt32 - 1.
Proof.
  induction 1 as [|fuel R n v Hr IH Hg].
  - unfold MaxInt32. lia.
  - apply legalID_counter.
    apply (skipRestricted_sound fuel R (advance n) v); [|exact Hg].
    now apply advance_legal.
Qed.

(** C7: for every restricted set [R] that leaves a legal ID free and every
    reachable value of the counter, the allocator returns (from some amount
    of fuel on, always the same value), and the value is in
    [1, 2^31 - 2] and not in [R].  With the counter at [2^31 - 2] the
    next ID is 1 (when 1 is not restricted), and with the counter at 10
    and R = {10, 11, 12} it is 13. *)
Theorem getNextID_allocates :
  (forall (R : list Z) (n : Z),
      reachable n ->
      (exists x : Z, 1 <= x <= 2 ^ 31 - 2 /\ idInArr R x = false) ->
      exists (v : Z) (fuel0 : nat),
        (forall fuel : nat, (fuel0 <= fuel)%nat -> getNextID fuel R n = Some v)
        /\ 1 <= v <= 2 ^ 31 - 2 /\ idInArr R v = false)
  /\ (forall (R : list Z) (fuel : nat),
         idInArr R 1 = false -> getNextID (S fuel) R (2 ^ 31 - 2) = Some 1)
  /\ (forall fuel : nat, getNextID (4 + fuel) [10; 11; 12] 10 = Some 13).
Proof.
  split; [|split].
  - intros R n Hr (x & Hx & HR).
    destruct (getNextID_terminates R n (reachable_counter n Hr)) as
      (v & fuel0 & Hv & Hl & Hf).
    { exists x. split; [exact Hx|exact HR]. }
    exists v, fuel0. repeat split; try assumption; apply Hl.
  - intros R fuel H. unfold getNextID.
    change (advance (2 ^ 31 - 2)) with 1. cbn [skipRestricted]. now rewrite H.
  - intros fuel. reflexivity.
Qed.

Lemma getNextID_allocates_witness :
  exists (v : Z) (fuel0 : nat),
    (forall fuel : nat, (fuel0 <= fuel)%nat ->
       getNextID fuel [10; 11; 12] 0 = Some v)
    /\ 1 <= v <= 2 ^ 31 - 2 /\ idInArr [10; 11; 12] v = false.
Proof.
  apply (proj1 getNextID_allocates [10; 11; 12] 0 reachable_start).
  exists 1. split; [lia|reflexivity].
Defined.

End Allocator.

(** ** The session: authentication *)

Section Authentication.
Import packet rcon.

(** The steps of [authenticate] once the packet is allocated, the write
    has succeeded and the read has produced the packet [res]: the verdict
    depends on [res] alone.  A response of another type than
    [TypeAuthRes] falls into [errors.Wrap(err, ...)] with a nil [err], which
    is nil. *)
Lemma authenticate_verdict (fuel : nat) (env : ReadEnv) (s : State)
    (p res : ClientPacket) (n : Z) (rest : Reader) :
  conn s = true ->
  NewClientPacket fuel (EndianMode s) TypeAuth (Password s)
    (RestrictedPacketIDs s) (nextClientPacketID s) = Some (p, n) ->
  deadlineErr env = None ->
  DecodeClientPacket (EndianMode s) (inbound env) = Decoded res rest ->
  authenticate fuel None env s
  = Returns
      (if negb (pType res =? TypeAuthRes) then None
       else if id res =? AuthFailedID
            then Some (withMessage ErrAuthentication "authentication failed")
            else None)
      (emit (EvSocketWrite (fst (Build p))) (set_nextClientPacketID n s)).
Proof.
  intros Hc Hp Hd Hr.
  unfold authenticate, bind, gets, newClientPacket. rewrite Hp.
  unfold sendPacket.
  rewrite (surjective_pairing (Build p)), Build_no_error.
  unfold bind, write, ret. cbn [conn set_nextClientPacketID]. rewrite Hc.
  unfold readPacketTimeout, readPacket.
  cbn [conn emit set_nextClientPacketID EndianMode]. rewrite Hc.
  cbn [negb]. rewrite Hd, Hr.
  unfold Type_, ID.
  destruct (negb (pType res =? TypeAuthRes)); [reflexivity|].
  destruct (id res =? AuthFailedID); reflexivity.
Qed.

(** Scenario S6: the ID -1 in an auth response makes [Connect] return the
    authentication error, and no fiber is started. *)
Example Connect_refused :
  returned (Connect 1 refusedEnv (NewClient sampleConfig 0))
  = Some (Some (withMessage ErrAuthentication "authentication failed"))
  /\ writerRunning (final_state (Connect 1 refusedEnv (NewClient sampleConfig 0)))
     = false.
Proof. split; vm_compute; reflexivity. Qed.

(** C1 (the code departs from the claim): the response is of type 0, not
    [TypeAuthRes], and yet [authenticate] returns nil, and so does
    [Connect], which goes on to start the writer and reader fibers.  The
    claim asks for an error of the authentication kind. *)
Theorem authenticate_accepts_other_type :
  returned (authenticate 1 None valueResponse
              (set_conn true (NewClient sampleConfig 0)))
  = Some None
  /\ returned (Connect 1 valueResponseEnv (NewClient sampleConfig 0)) = Some None
  /\ writerRunning
       (final_state (Connect 1 valueResponseEnv (NewClient sampleConfig 0)))
     = true.
Proof. repeat split; vm_compute; reflexivity. Qed.

End Authentication.

(** ** The session: commands *)

Section Commands.
Import packet rcon.

Lemma newClientPacket_returns (s : State) :
  canAllocate s ->
  exists (v : Z) (fuel0 : nat),
    legalID v /\ idInArr (RestrictedPacketIDs s) v = false
    /\ forall (fuel : nat) (t : Z) (b : list byte),
         (fuel0 <= fuel)%nat ->
         newClientPacket fuel t b s
         = Returns (mkClientPacket (EndianMode s) t b v)
             (set_nextClientPacketID v s).
Proof.
  intros [Hn Hx].
  destruct (getNextID_terminates _ _ Hn Hx) as (v & fuel0 & Hv & Hl & HR).
  exists v, fuel0. repeat split; try assumption; try apply Hl.
  intros fuel t b Hf. unfold newClientPacket, NewClientPacket.
  now rewrite (Hv fuel Hf).
Qed.

(** [ExecCommand] step by step, once its packet [p] is allocated: what it
    returns, the events it adds, and the mailbox table it leaves. *)
Lemma ExecCommand_run (fuel : nat) (command : list byte) (env : ExecEnv)
    (s s1 : State) (p : ClientPacket) :
  newClientPacket fuel TypeCommand command s = Returns p s1 ->
  exists (r : list byte * option error) (s' : State),
    ExecCommand fuel command env s = Returns r s'
    /\ trace s' = trace s1 ++ execEvents (writerRunning s1 && taken env) p
    /\ r = (if writerRunning s1 && taken env
            then match delivered env with
                 | Some res => (body res, None)
                 | None => ([], Some readTimeout)
                 end
            else ([], Some queueTimeout))
    /\ readQueue s'
       = (if writerRunning s1 && taken env
          then delete (ID p) (readQueue s1)
          else readQueue s1).
Proof.
  intros Hp. unfold ExecCommand, bind at 1. rewrite Hp.
  unfold enqueuePacket, bind, gets, modify, ret.
  destruct (writerRunning s1 && taken env) eqn:E.
  - unfold getResponse, bind, gets, modify, ret.
    cbn [readQueue emit set_readQueue]. rewrite lookup_insert_eq.
    cbn [readQueue emit set_readQueue trace]. unfold execEvents.
    destruct (delivered env) as [res|]; eexists; eexists;
      (split; [reflexivity|]);
      cbn [trace emit set_readQueue readQueue];
      rewrite <- !app_assoc, delete_insert_eq; repeat split.
    unfold Body. rewrite length_app. cbn [length].
    replace (length (body res) + 1 - 1)%nat with (length (body res)) by lia.
    now rewrite take_app_length.
  - exists ([], Some queueTimeout), s1. unfold execEvents.
    rewrite app_nil_r. repeat split.
Qed.

Lemma canAllocate_frame (s s' : State) :
  nextClientPacketID s' = nextClientPacketID s ->
  RestrictedPacketIDs s' = RestrictedPacketIDs s ->
  canAllocate s -> canAllocate s'.
Proof. unfold canAllocate. intros -> ->. tauto. Qed.

(** Without a writer fiber the hand-off times out. *)
Lemma ExecCommand_no_writer (s : State) (command : list byte) (env : ExecEnv) :
  writerRunning s = false -> canAllocate s ->
  exists (fuel0 : nat) (s' : State),
    (forall fuel : nat, (fuel0 <= fuel)%nat ->
       ExecCommand fuel command env s = Returns ([], Some queueTimeout) s')
    /\ trace s' = trace s /\ readQueue s' = readQueue s.
Proof.
  intros Hw Ha.
  destruct (newClientPacket_returns s Ha) as (v & fuel0 & _ & _ & Hp).
  exists fuel0, (set_nextClientPacketID v s). split; [|split; reflexivity].
  intros fuel Hf. unfold ExecCommand, bind at 1.
  rewrite (Hp fuel TypeCommand command Hf).
  unfold enqueuePacket, bind, gets, ret.
  cbn [writerRunning set_nextClientPacketID]. rewrite Hw. reflexivity.
Qed.

(** [Close] on an open session, then the turn of the writer, which sees
    the closed termination channel and returns. *)
Lemma Close_then_writer_exits (s : State) :
  conn s = true -> terminate s = false ->
  exists s1 s2 : State,
    Close s = Returns None s1 /\ writerTurn None s1 = Returns tt s2
    /\ conn s2 = false /\ terminate s2 = true /\ writerRunning s2 = false
    /\ nextClientPacketID s2 = nextClientPacketID s
    /\ RestrictedPacketIDs s2 = RestrictedPacketIDs s.
Proof.
  intros Hc Ht. unfold Close, disconnect, writerTurn, bind, gets, modify, ret.
  rewrite Hc. cbn [negb]. rewrite Ht.
  cbn [conn emit set_terminate]. rewrite Hc. cbn [negb].
  destruct (hasDisconnectHandler _) eqn:E; eexists; eexists;
    (split; [reflexivity|]); cbn; rewrite ?E; repeat split.
Qed.

(** The errors of [ExecCommand] are the two timeouts. *)
Lemma ExecCommand_errors (fuel : nat) (command : list byte) (env : ExecEnv)
    (s s' : State) (out : list byte) (err : error) :
  ExecCommand fuel command env s = Returns (out, Some err) s' ->
  err = queueTimeout \/ err = readTimeout.
Proof.
  intros H.
  destruct (newClientPacket fuel TypeCommand command s) as [p s1| |] eqn:Hp.
  - destruct (ExecCommand_run fuel command env s s1 p Hp)
      as (r & s2 & Hrun & _ & Hr & _).
    rewrite Hrun in H. injection H as H _. rewrite H in Hr.
    destruct (writerRunning s1 && taken env).
    + destruct (delivered env); [discriminate|].
      injection Hr as _ ->. now right.
    + injection Hr as _ ->. now left.
  - unfold ExecCommand, bind in H. rewrite Hp in H. discriminate.
  - unfold ExecCommand, bind in H. rewrite Hp in H. discriminate.
Qed.

(** C3, counterexample: on a client that was never connected, and on one
    that was connected and closed, [ExecCommand] returns the error of the
    queue timeout, whose cause is not [ErrNotConnected]. *)
Lemma ExecCommand_unconnected_times_out :
  returned (ExecCommand 1 status (mkExecEnv true None) (NewClient sampleConfig 0))
  = Some ([], Some queueTimeout)
  /\ conn closed = false
  /\ returned (ExecCommand 1 status (mkExecEnv true None) closed)
     = Some ([], Some queueTimeout)
  /\ errors.Cause queueTimeout = ErrQueueTimeout
  /\ errors.Cause queueTimeout <> ErrNotConnected.
Proof.
  split; [vm_compute; reflexivity|]. split; [vm_compute; reflexivity|].
  split; [vm_compute; reflexivity|]. split; [reflexivity|discriminate].
Qed.

(** C3, as amended: [ExecCommand] has no test of the connection.  Called
    while no writer fiber receives from the send queue -- before
    [Connect], or on a closed session whose writer has returned -- it
    returns the queue-timeout error and leaves trace and mailboxes as they
    were; and whatever the state, an error returned by [ExecCommand] is the
    queue timeout or the read timeout, never [ErrNotConnected]. *)
Theorem ExecCommand_without_writer :
  (forall (s : State) (command : list byte) (env : ExecEnv),
      writerRunning s = false -> canAllocate s ->
      exists (fuel0 : nat) (err : error) (s' : State),
        (forall fuel : nat, (fuel0 <= fuel)%nat ->
           ExecCommand fuel command env s = Returns ([], Some err) s')
        /\ errors.Cause err = ErrQueueTimeout
        /\ trace s' = trace s /\ readQueue s' = readQueue s)
  /\ (forall (config : Config) (counter : Z) (command : list byte)
         (env : ExecEnv),
         canAllocate (NewClient config counter) ->
         exists (fuel0 : nat) (err : error) (s' : State),
           (forall fuel : nat, (fuel0 <= fuel)%nat ->
              ExecCommand fuel command env (NewClient config counter)
              = Returns ([], Some err) s')
           /\ errors.Cause err = ErrQueueTimeout)
  /\ (forall (s : State) (command : list byte) (env : ExecEnv),
         conn s = true -> terminate s = false -> canAllocate s ->
         exists (s1 s2 : State) (fuel0 : nat) (err : error) (s' : State),
           Close s = Returns None s1 /\ writerTurn None s1 = Returns tt s2
           /\ conn s2 = false
           /\ (forall fuel : nat, (fuel0 <= fuel)%nat ->
                 ExecCommand fuel command env s2 = Returns ([], Some err) s')
           /\ errors.Cause err = ErrQueueTimeout)
  /\ (forall (fuel : nat) (command : list byte) (env : ExecEnv)
         (s s' : State) (out : list byte) (err : error),
         ExecCommand fuel command env s = Returns (out, Some err) s' ->
         (errors.Cause err = ErrQueueTimeout \/ errors.Cause err = ErrReadTimeout)
         /\ errors.Cause err <> ErrNotConnected).
Proof.
  split; [|split; [|split]].
  - intros s command env Hw Ha.
    destruct (ExecCommand_no_writer s command env Hw Ha)
      as (fuel0 & s' & H & Ht & Hq).
    exists fuel0, queueTimeout, s'. repeat split; assumption.
  - intros config counter command env Ha.
    destruct (ExecCommand_no_writer (NewClient config counter) command env
                eq_refl Ha) as (fuel0 & s' & H & _).
    exists fuel0, queueTimeout, s'. split; [exact H|reflexivity].
  - intros s command env Hc Ht Ha.
    destruct (Close_then_writer_exits s Hc Ht)
      as (s1 & s2 & H1 & H2 & Hc2 & _ & Hw & Hn & HR).
    destruct (ExecCommand_no_writer s2 command env Hw
                (canAllocate_frame s s2 Hn HR Ha)) as (fuel0 & s' & H & _).
    exists s1, s2, fuel0, queueTimeout, s'. repeat split; assumption.
  - intros fuel command env s s' out err H.
    destruct (ExecCommand_errors fuel command env s s' out err H) as [-> | ->].
    + split; [now left|discriminate].
    + split; [now right|discriminate].
Qed.

Lemma ExecCommand_without_writer_witness :
  exists (fuel0 : nat) (err : error) (s' : State),
    (forall fuel : nat, (fuel0 <= fuel)%nat ->
       ExecCommand fuel status (mkExecEnv true None) (NewClient sampleConfig 0)
       = Returns ([], Some err) s')
    /\ errors.Cause err = ErrQueueTimeout.
Proof.
  apply (proj1 (proj2 ExecCommand_without_writer) sampleConfig 0 status
           (mkExecEnv true None)).
  split; [simpl; unfold MaxInt32; lia|].
  exists 1. split; [unfold legalID, MaxInt32; lia|reflexivity].
Defined.

(** ** The session: mailbox and send queue *)

(** C4, counterexample: a command on the connected session, taken by the
    writer and answered.  In the trace the hand-off to the send queue is
    the event number 3 and the creation of the mailbox the event number 4:
    the mailbox is created after the hand-off, not before. *)
Lemma mailbox_created_after_handoff_example :
  let s' :=
    final_state (ExecCommand 1 status (mkExecEnv true (Some okResponse))
                   connected) in
  position isQueued (trace s') = Some 3%nat
  /\ position isMailboxCreated (trace s') = Some 4%nat
  /\ ~ (4 < 3)%nat.
Proof.
  cbv zeta. split; [vm_compute; reflexivity|].
  split; [vm_compute; reflexivity|lia].
Qed.

(** C4, as amended: every [ExecCommand] returns, and the events it adds
    are, when the writer takes the packet, the hand-off to the send queue,
    then the creation of the mailbox for the ID of the packet, then its
    removal; when the hand-off times out there is no event and no
    mailbox. *)
Theorem mailbox_created_after_handoff (s : State) (command : list byte)
    (env : ExecEnv) :
  canAllocate s ->
  exists (fuel0 : nat) (p : ClientPacket) (r : list byte * option error)
         (s' : State),
    (forall fuel : nat, (fuel0 <= fuel)%nat ->
       ExecCommand fuel command env s = Returns r s')
    /\ body p = command /\ pType p = TypeCommand
    /\ trace s'
       = trace s
         ++ (if writerRunning s && taken env
             then [EvQueued p; EvMailboxCreated (ID p); EvMailboxRemoved (ID p)]
             else []).
Proof.
  intros Ha.
  destruct (newClientPacket_returns s Ha) as (v & fuel0 & _ & _ & Hp).
  destruct (ExecCommand_run fuel0 command env s _ _
              (Hp fuel0 TypeCommand command (Nat.le_refl _)))
    as (r & s' & Hrun & Htr & _ & _).
  exists fuel0, (mkClientPacket (EndianMode s) TypeCommand command v), r, s'.
  split; [|split; [reflexivity|split; [reflexivity|exact Htr]]].
  intros fuel Hf. rewrite <- Hrun.
  unfold ExecCommand, bind.
  now rewrite (Hp fuel TypeCommand command Hf),
    (Hp fuel0 TypeCommand command (Nat.le_refl _)).
Qed.

Lemma mailbox_created_after_handoff_witness :
  exists (fuel0 : nat) (p : ClientPacket) (r : list byte * option error)
         (s' : State),
    (forall fuel : nat, (fuel0 <= fuel)%nat ->
       ExecCommand fuel status (mkExecEnv true (Some okResponse)) connected
       = Returns r s')
    /\ body p = status /\ pType p = TypeCommand
    /\ trace s'
       = trace connected
         ++ (if writerRunning connected && true
             then [EvQueued p; EvMailboxCreated (ID p); EvMailboxRemoved (ID p)]
             else []).
Proof.
  apply (mailbox_created_after_handoff connected status
           (mkExecEnv true (Some okResponse))).
  split; [vm_compute; split; discriminate|].
  exists 2. split; [unfold legalID, MaxInt32; lia|reflexivity].
Defined.

End Commands.

(** ** The session: shutdown *)

Section Shutdown.
Import packet rcon.

Lemma preserves_ret {A : Type} (a : A) : preserves (ret a).
Proof. intros s H. exact H. Qed.

Lemma preserves_gets {A : Type} (f : State -> A) : preserves (gets f).
Proof. intros s H. exact H. Qed.

Lemma preserves_panic {A : Type} (msg : string) : preserves (@panic A msg).
Proof. intros s H. exact H. Qed.

Lemma preserves_bind {A B : Type} (m : M A) (k : A -> M B) :
  preserves m -> (forall a : A, preserves (k a)) -> preserves (bind m k).
Proof.
  intros Hm Hk s H. specialize (Hm s H). unfold bind.
  destruct (m s) as [a s'| |]; cbn [final_state] in *; try assumption.
  now apply Hk.
Qed.

Lemma preserves_modify (f : State -> State) : quiet f -> preserves (modify f).
Proof.
  intros Hf s [H1 H2]. destruct (Hf s) as (Ht & Hc & Hh).
  unfold modify, fired. cbn [final_state]. rewrite Ht, Hc, Hh. now split.
Qed.

Lemma count_app (f : Event -> bool) (tr : list Event) (e : Event) :
  count f (tr ++ [e]) = (count f tr + (if f e then 1 else 0))%nat.
Proof.
  induction tr as [|x tr IH]; cbn [count app]; [lia|]. rewrite IH. lia.
Qed.

Lemma quiet_emit (e : Event) :
  isTerminate e = false -> isDisconnectHandler e = false -> quiet (emit e).
Proof.
  intros H1 H2 s. cbn [emit terminate trace]. rewrite !count_app, H1, H2.
  repeat split; lia.
Qed.

Lemma quiet_set_nextClientPacketID (n : Z) : quiet (set_nextClientPacketID n).
Proof. intros s. repeat split. Qed.

Lemma quiet_set_conn (b : bool) : quiet (set_conn b).
Proof. intros s. repeat split. Qed.

Lemma quiet_set_writerRunning (b : bool) : quiet (set_writerRunning b).
Proof. intros s. repeat split. Qed.

Lemma quiet_set_readQueue (q : gmap Z unit) : quiet (set_readQueue q).
Proof. intros s. repeat split. Qed.

(** One step of a proof that a computation keeps the invariant. *)
Ltac preserve_step :=
  match goal with
  | |- preserves (bind _ _) => apply preserves_bind; [|intro]
  | |- preserves (ret _) => apply preserves_ret
  | |- preserves (gets _) => apply preserves_gets
  | |- preserves (panic _) => apply preserves_panic
  | |- preserves (modify (emit _)) =>
      apply preserves_modify, quiet_emit; reflexivity
  | |- preserves (modify (set_nextClientPacketID _)) =>
      apply preserves_modify, quiet_set_nextClientPacketID
  | |- preserves (modify (set_conn _)) =>
      apply preserves_modify, quiet_set_conn
  | |- preserves (modify (set_writerRunning _)) =>
      apply preserves_modify, quiet_set_writerRunning
  | |- preserves (modify (set_readQueue _)) =>
      apply preserves_modify, quiet_set_readQueue
  | |- preserves (if ?b then _ else _) => destruct b
  | |- preserves (match ?x with _ => _ end) => destruct x
  | H : preserves ?m |- preserves ?m => exact H
  end.

Ltac preserve := cbv zeta; repeat preserve_step.

Lemma preserves_newClientPacket (fuel : nat) (t : Z) (b : list byte) :
  preserves (newClientPacket fuel t b).
Proof.
  intros s H. unfold newClientPacket.
  destruct (NewClientPacket _ _ _ _ _ _) as [[p n]|]; exact H.
Qed.

Lemma preserves_write (data : list byte) (werr : option ioerror) :
  preserves (write data werr).
Proof.
  intros s H. unfold write. destruct (conn s), werr; try exact H.
  apply (preserves_modify (emit (EvSocketWrite data))); [|exact H].
  now apply quiet_emit.
Qed.

Lemma preserves_sendPacket (p : ClientPacket) (werr : option ioerror) :
  preserves (sendPacket p werr).
Proof.
  pose proof (preserves_write (fst (Build p)) werr).
  unfold sendPacket. rewrite (surjective_pairing (Build p)), Build_no_error.
  preserve.
Qed.

Lemma preserves_readPacket (env : ReadEnv) : preserves (readPacket env).
Proof.
  intros s H. unfold readPacket.
  destruct (negb (conn s)); [exact H|].
  destruct (deadlineErr env); [destruct (HasSuffix _ _); exact H|].
  destruct (DecodeClientPacket _ _); try exact H.
  destruct (HasSuffix _ _); exact H.
Qed.

Lemma preserves_authenticate (fuel : nat) (werr : option ioerror)
    (env : ReadEnv) :
  preserves (authenticate fuel werr env).
Proof.
  pose proof (preserves_newClientPacket fuel) as Hn.
  pose proof (fun p => preserves_sendPacket p werr) as Hs.
  pose proof (preserves_readPacket env) as Hr.
  unfold authenticate, readPacketTimeout.
  apply preserves_bind; [preserve|intro].
  apply preserves_bind; [apply Hn|intro].
  apply preserves_bind; [apply Hs|intro].
  preserve.
Qed.

Lemma preserves_Connect (fuel : nat) (env : ConnectEnv) :
  preserves (Connect fuel env).
Proof.
  pose proof (preserves_authenticate fuel (authWriteErr env) (authRead env)).
  unfold Connect. preserve.
Qed.

(** [disconnect] closes the termination channel only when it is open, and
    runs the handler only after it has closed the channel. *)
Lemma preserves_disconnect (err : option error) : preserves (disconnect err).
Proof.
  intros s [H1 H2]. unfold disconnect, bind, gets, modify, panic, ret.
  destruct (terminate s) eqn:Ht.
  { cbn [final_state]. unfold fired. rewrite Ht. now split. }
  cbn [conn emit set_terminate].
  destruct (conn s); cbn [negb final_state].
  - cbn [hasDisconnectHandler set_conn emit set_terminate].
    destruct (hasDisconnectHandler s); cbn [final_state]; unfold fired;
      cbn [trace terminate emit set_conn set_terminate];
      rewrite !count_app; cbn [isTerminate isDisconnectHandler]; lia.
  - unfold fired. cbn [trace terminate emit set_terminate].
    rewrite !count_app. cbn [isTerminate isDisconnectHandler]. lia.
Qed.

Lemma preserves_Close : preserves Close.
Proof.
  pose proof (preserves_disconnect None). unfold Close. preserve.
Qed.

Lemma preserves_enqueuePacket (p : ClientPacket) (createMailbox taken : bool) :
  preserves (enqueuePacket p createMailbox taken).
Proof. unfold enqueuePacket. preserve. Qed.

Lemma preserves_getResponse (packetID : Z) (delivered : option ClientPacket) :
  preserves (getResponse packetID delivered).
Proof.
  unfold getResponse. apply preserves_bind; [preserve|intro q].
  cbv zeta. destruct (q !! packetID); preserve.
Qed.

Lemma preserves_ExecCommand (fuel : nat) (command : list byte) (env : ExecEnv) :
  preserves (ExecCommand fuel command env).
Proof.
  pose proof (preserves_newClientPacket fuel) as Hn.
  unfold ExecCommand.
  apply preserves_bind; [apply Hn|intro p].
  apply preserves_bind; [apply preserves_enqueuePacket|intros [e|]].
  - preserve.
  - apply preserves_bind; [apply preserves_getResponse|intro]. preserve.
Qed.

Lemma preserves_ExecCommandNoResponse (fuel : nat) (command : list byte)
    (taken : bool) :
  preserves (ExecCommandNoResponse fuel command taken).
Proof.
  pose proof (preserves_newClientPacket fuel) as Hn.
  unfold ExecCommandNoResponse.
  apply preserves_bind; [apply Hn|intro p].
  apply preserves_bind; [apply preserves_enqueuePacket|intro]. preserve.
Qed.

Lemma preserves_writerTurn (received : option (ClientPacket * option ioerror)) :
  preserves (writerTurn received).
Proof.
  unfold writerTurn. apply preserves_bind; [preserve|intro closed].
  destruct received as [[p werr]|].
  - apply preserves_bind; [apply preserves_sendPacket|intro]. preserve.
  - preserve.
Qed.

Lemma preserves_readerTurn (env : ReadEnv) (dispatched : bool) :
  preserves (readerTurn env dispatched).
Proof.
  pose proof preserves_disconnect as Hd.
  unfold readerTurn.
  apply preserves_bind; [apply preserves_readPacket|intros [p|err]].
  - preserve.
  - destruct (errors.Cause err) as [| | | |[| | |]| |]; preserve; apply Hd.
Qed.

Lemma preserves_SetDisconnectHandler (handler : bool) :
  preserves (SetDisconnectHandler handler).
Proof. apply preserves_modify. intros s. repeat split. Qed.

Lemma preserves_step (op : Op) : preserves (step op).
Proof.
  destruct op; cbn [step];
    try (apply preserves_bind; [|intro; apply preserves_ret]).
  - apply preserves_Connect.
  - apply preserves_Close.
  - apply preserves_ExecCommand.
  - apply preserves_ExecCommandNoResponse.
  - apply preserves_SetDisconnectHandler.
  - apply preserves_writerTurn.
  - apply preserves_readerTurn.
  - apply preserves_disconnect.
Qed.

Lemma fired_run (ops : list Op) (s : State) : fired s -> fired (run ops s).
Proof.
  revert s. induction ops as [|op ops IH]; intros s H; [exact H|].
  cbn [run]. pose proof (preserves_step op s H) as Hs.
  destruct (step op s); cbn [final_state] in Hs; auto.
Qed.

Lemma fired_NewClient (config : Config) (counter : Z) :
  fired (NewClient config counter).
Proof. split; cbn; lia. Qed.

Lemma fired_at_most_once (s : State) :
  fired s ->
  (count isDisconnectHandler (trace s) <= 1)%nat
  /\ (count isTerminate (trace s) <= 1)%nat.
Proof. intros [H1 H2]. destruct (terminate s); lia. Qed.

(** [Close] on an open session, and [Close] once more. *)
Lemma Close_twice (s : State) :
  conn s = true -> terminate s = false ->
  exists s1 : State,
    Close s = Returns None s1
    /\ conn s1 = false
    /\ Close s1 = Returns (Some ErrNotConnected) s1
    /\ count isTerminate (trace s1) = S (count isTerminate (trace s))
    /\ count isDisconnectHandler (trace s1)
       = (count isDisconnectHandler (trace s)
          + (if hasDisconnectHandler s then 1 else 0))%nat.
Proof.
  intros Hc Ht. unfold Close, disconnect, bind, gets, modify, ret.
  rewrite Hc. cbn [negb]. rewrite Ht.
  cbn [conn emit set_terminate]. rewrite Hc. cbn [negb].
  cbn [hasDisconnectHandler set_conn emit set_terminate].
  destruct (hasDisconnectHandler s); eexists; (split; [reflexivity|]);
    cbn [conn trace emit set_conn set_terminate negb];
    rewrite !count_app; cbn [isTerminate isDisconnectHandler];
    repeat split; lia.
Qed.

(** C8: along every sequence of operations on a session the disconnect
    handler runs at most once and the termination channel is closed at
    most once; [Close] on a session whose socket handle is nil returns
    [ErrNotConnected] and changes nothing; and after a [Close] that shut the
    session down, a second [Close] returns [ErrNotConnected], runs no
    handler and closes no channel. *)
Theorem disconnect_at_most_once :
  (forall (config : Config) (counter : Z) (ops : list Op),
      (count isDisconnectHandler
         (trace (run ops (NewClient config counter))) <= 1)%nat
      /\ (count isTerminate
            (trace (run ops (NewClient config counter))) <= 1)%nat)
  /\ (forall s : State,
         conn s = false -> Close s = Returns (Some ErrNotConnected) s)
  /\ (forall s : State,
         conn s = true -> terminate s = false ->
         exists s1 : State,
           Close s = Returns None s1
           /\ conn s1 = false
           /\ Close s1 = Returns (Some ErrNotConnected) s1
           /\ count isTerminate (trace s1) = S (count isTerminate (trace s))
           /\ count isDisconnectHandler (trace s1)
              = (count isDisconnectHandler (trace s)
                 + (if hasDisconnectHandler s then 1 else 0))%nat).
Proof.
  split; [|split].
  - intros config counter ops.
    apply fired_at_most_once, fired_run, fired_NewClient.
  - intros s Hc. unfold Close, bind, gets, ret. now rewrite Hc.
  - exact Close_twice.
Qed.

Lemma disconnect_at_most_once_witness :
  exists s1 : State,
    Close connected = Returns None s1
    /\ conn s1 = false
    /\ Close s1 = Returns (Some ErrNotConnected) s1
    /\ count isTerminate (trace s1) = S (count isTerminate (trace connected))
    /\ count isDisconnectHandler (trace s1)
       = (count isDisconnectHandler (trace connected)
          + (if hasDisconnectHandler connected then 1 else 0))%nat.
Proof.
  apply (proj2 (proj2 disconnect_at_most_once) connected);
    vm_compute; reflexivity.
Defined.

(** The reader meets the end of the stream and the user closes the session
    at the same time: the second [disconnect] panics on the closed channel
    before it reaches the handler. *)
Example late_disconnect_trace :
  let s := run [OpConnect 1 grantedEnv; OpClose; OpLateDisconnect (Some (Io EOF))]
             (NewClient sampleConfig 0) in
  count isDisconnectHandler (trace s) = 1%nat
  /\ count isTerminate (trace s) = 1%nat.
Proof. cbv zeta. split; vm_compute; reflexivity. Qed.

(** A session that is connected, closed by the user and closed again: the
    handler has run once, with a nil error and [expected = true]. *)
Example close_twice_trace :
  let s := run [OpConnect 1 grantedEnv; OpClose; OpClose]
             (NewClient sampleConfig 0) in
  count isDisconnectHandler (trace s) = 1%nat
  /\ count isTerminate (trace s) = 1%nat
  /\ List.last (trace s) EvTerminate = EvDisconnectHandler None true.
Proof. cbv zeta. repeat split; vm_compute; reflexivity. Qed.

End Shutdown.

(** * Further properties of the code *)

(** ** The ID allocator: which ID comes next *)

Section AllocatorOrder.
Import packet.

Lemma advanceN_succ_r (k : nat) (n : Z) :
  advanceN (S k) n = advanceN k (advance n).
Proof. unfold advanceN. apply Nat.iter_succ_r. Qed.

(** What the loop returns is reached from its start by some moves of the
    counter, and every value passed on the way is restricted. *)
Lemma skipRestricted_first_free (fuel : nat) (R : list Z) (n v : Z) :
  skipRestricted fuel R n = Some v ->
  exists k : nat,
    (k < fuel)%nat /\ v = advanceN k n
    /\ forall j : nat, (j < k)%nat -> idInArr R (advanceN j n) = true.
Proof.
  revert n. induction fuel as [|fuel IH]; intros n H; [discriminate|].
  cbn [skipRestricted] in H. destruct (idInArr R n) eqn:E.
  - destruct (IH _ H) as (k & Hk & Hv & Hj).
    exists (S k). split; [lia|]. split.
    + now rewrite advanceN_succ_r.
    + intros [|j] Hlt; [exact E|]. rewrite advanceN_succ_r. apply Hj. lia.
  - injection H as <-. exists 0%nat. split; [lia|]. split; [reflexivity|].
    intros j Hj. lia.
Qed.

(** X1: the ID returned by [getNextID] is the first one after the counter,
    in the order 1, 2, ..., 2^31 - 2, 1, ..., that is not restricted: it
    is reached by [k + 1] moves of the counter, the IDs reached by fewer
    moves are all restricted, and it is not. *)
Theorem getNextID_first_free (fuel : nat) (R : list Z) (n v : Z) :
  0 <= n <= MaxInt32 - 1 ->
  getNextID fuel R n = Some v ->
  idInArr R v = false
  /\ exists k : nat,
       v = advanceN (S k) n
       /\ forall j : nat, (j < k)%nat -> idInArr R (advanceN (S j) n) = true.
Proof.
  intros Hn H. split.
  - apply (skipRestricted_sound fuel R (advance n) v); [|exact H].
    now apply advance_legal.
  - destruct (skipRestricted_first_free fuel R (advance n) v H)
      as (k & _ & Hv & Hj).
    exists k. split.
    + now rewrite advanceN_succ_r.
    + intros j Hlt. rewrite advanceN_succ_r. now apply Hj.
Qed.

Lemma getNextID_first_free_witness :
  idInArr [10; 11; 12] 13 = false
  /\ exists k : nat,
       13 = advanceN (S k) 10
       /\ forall j : nat, (j < k)%nat ->
            idInArr [10; 11; 12] (advanceN (S j) 10) = true.
Proof.
  apply (getNextID_first_free 4 [10; 11; 12] 10 13).
  - unfold MaxInt32. lia.
  - reflexivity.
Defined.

(** The moves of the counter in closed form. *)
Lemma advanceN_closed (k : nat) (v : Z) :
  legalID v ->
  advanceN k v = (v - 1 + Z.of_nat k) mod (MaxInt32 - 1) + 1.
Proof.
  intros Hv. induction k as [|k IH].
  - cbn. rewrite Z.add_0_r, Z.mod_small; unfold legalID, MaxInt32 in *; lia.
  - change (advanceN (S k) v) with (advance (advanceN k v)). rewrite IH.
    pose proof (Z.mod_pos_bound (v - 1 + Z.of_nat k) (MaxInt32 - 1)) as Hb.
    assert (0 < MaxInt32 - 1) as Hpos by (unfold MaxInt32; lia).
    specialize (Hb Hpos).
    rewrite advance_eq by lia.
    replace (v - 1 + Z.of_nat (S k)) with ((v - 1 + Z.of_nat k) + 1) by lia.
    rewrite <- (Zplus_mod_idemp_l (v - 1 + Z.of_nat k) 1).
    set (r := (v - 1 + Z.of_nat k) mod (MaxInt32 - 1)) in *.
    destruct (Z.eqb_spec (r + 1) (MaxInt32 - 1)) as [E|E].
    + rewrite E, Z.mod_same by lia. reflexivity.
    + rewrite Z.mod_small by lia. reflexivity.
Qed.

(** X2: two allocations in a row never return the same ID, as long as
    some other legal ID is free. *)
Theorem getNextID_consecutive_distinct (fuel1 fuel2 : nat) (R : list Z)
    (n v1 v2 x : Z) :
  0 <= n <= MaxInt32 - 1 ->
  getNextID fuel1 R n = Some v1 ->
  getNextID fuel2 R v1 = Some v2 ->
  legalID x -> idInArr R x = false -> x <> v1 ->
  v2 <> v1.
Proof.
  intros Hn H1 H2 Hx HRx Hne Heq.
  assert (legalID v1) as Hv1.
  { apply (skipRestricted_sound fuel1 R (advance n) v1); [|exact H1].
    now apply advance_legal. }
  destruct (skipRestricted_first_free fuel2 R (advance v1) v2 H2)
    as (k & _ & Hk & Hj).
  rewrite <- advanceN_succ_r in Hk.
  rewrite Heq in Hk. rewrite advanceN_closed in Hk by exact Hv1.
  unfold legalID, MaxInt32 in *.
  (* a full turn of the cycle lies between v1 and itself *)
  assert (2147483646 <= Z.of_nat (S k)) as Hturn.
  { pose proof (Z.div_mod (v1 - 1 + Z.of_nat (S k)) (2147483647 - 1)
                  ltac:(lia)) as Hd.
    set (q := (v1 - 1 + Z.of_nat (S k)) / (2147483647 - 1)) in *.
    assert (0 < q \/ q <= 0) as [Hq|Hq] by lia; lia. }
  (* and x lies on the way *)
  set (d := (x - v1) mod 2147483646).
  pose proof (Z.mod_pos_bound (x - v1) 2147483646 ltac:(lia)) as Hdb.
  fold d in Hdb.
  assert (d <> 0) as Hd0.
  { intros Hz. subst d.
    pose proof (Z.div_mod (x - v1) 2147483646 ltac:(lia)) as Hdm.
    rewrite Hz in Hdm.
    set (q := (x - v1) / 2147483646) in *.
    assert (q = 0) by lia. lia. }
  assert (advanceN (Z.to_nat d) v1 = x) as Hreach.
  { rewrite advanceN_closed by (unfold legalID, MaxInt32; lia).
    rewrite Z2Nat.id by lia. unfold MaxInt32, d.
    change (2147483647 - 1) with 2147483646.
    rewrite Zplus_mod_idemp_r.
    replace (v1 - 1 + (x - v1)) with (x - 1) by lia.
    rewrite Z.mod_small; lia. }
  destruct (Z.to_nat d) as [|j] eqn:Ed; [lia|].
  specialize (Hj j ltac:(lia)). rewrite <- advanceN_succ_r, Hreach in Hj.
  congruence.
Qed.

Lemma getNextID_consecutive_distinct_witness : 5 <> 1.
Proof.
  apply (getNextID_consecutive_distinct 1 4 [2; 3; 4] 0 1 5 7).
  - unfold MaxInt32. lia.
  - reflexivity.
  - reflexivity.
  - unfold legalID, MaxInt32. lia.
  - reflexivity.
  - lia.
Defined.

Lemma allocations_unrestricted (fuel k : nat) (n : Z) :
  allocations (S fuel) k [] n = Some (advanceN k n).
Proof.
  revert n. induction k as [|k IH]; intros n; [reflexivity|].
  cbn [allocations]. unfold getNextID. cbn [skipRestricted idInArr].
  now rewrite IH, advanceN_succ_r.
Qed.

(** X3: in a fresh process and without restricted IDs, the allocations
    return 1, 2, 3, ... and start again at 1 after 2^31 - 2: the
    allocation number [k + 1] returns [k mod (2^31 - 2) + 1]. *)
Theorem allocations_cycle (fuel k : nat) :
  allocations (S fuel) (S k) [] 0
  = Some (Z.of_nat k mod (2 ^ 31 - 2) + 1).
Proof.
  rewrite allocations_unrestricted, advanceN_succ_r.
  change (advance 0) with 1.
  rewrite advanceN_closed by (unfold legalID, MaxInt32; lia).
  do 2 f_equal.
Qed.

End AllocatorOrder.

(** ** The Mordhau preset *)

Section Mordhau.
Import packet presets.

Lemma MordhauBroadcastChecker_idInArr (p : ClientPacket) :
  MordhauBroadcastChecker p = idInArr MordhauRestrictedPacketIDs (ID p).
Proof. reflexivity. Qed.

(** X4: the Mordhau checker takes a packet for a broadcast exactly when
    its ID lies between 54321 and 54330. *)
Theorem MordhauBroadcastChecker_range (p : ClientPacket) :
  MordhauBroadcastChecker p = true <-> 54321 <= id p <= 54330.
Proof.
  unfold MordhauBroadcastChecker, MordhauRestrictedPacketIDs, ID.
  repeat match goal with
         | |- context [?a =? ?b] => destruct (Z.eqb_spec a b)
         end; split; intros H; try reflexivity; try discriminate; lia.
Qed.

(** X5: with the restricted IDs of the Mordhau preset, every new client
    packet gets an ID that the Mordhau checker does not take for a
    broadcast; the allocation returns from any counter in range. *)
Theorem NewClientPacket_not_broadcast (m : endian.Mode) (t : Z)
    (b : list byte) (n : Z) :
  0 <= n <= MaxInt32 - 1 ->
  exists (p : ClientPacket) (fuel0 : nat),
    (forall fuel : nat, (fuel0 <= fuel)%nat ->
       NewClientPacket fuel m t b MordhauRestrictedPacketIDs n
       = Some (p, id p))
    /\ mode p = m /\ pType p = t /\ body p = b
    /\ legalID (id p)
    /\ MordhauBroadcastChecker p = false.
Proof.
  intros Hn.
  destruct (getNextID_terminates MordhauRestrictedPacketIDs n Hn)
    as (v & fuel0 & Hv & Hl & HR).
  { exists 1. split; [unfold legalID, MaxInt32; lia|reflexivity]. }
  exists (mkClientPacket m t b v), fuel0. repeat split; try apply Hl.
  - intros fuel Hf. unfold NewClientPacket. now rewrite (Hv fuel Hf).
  - rewrite MordhauBroadcastChecker_idInArr. exact HR.
Qed.

Lemma NewClientPacket_not_broadcast_witness :
  exists (p : ClientPacket) (fuel0 : nat),
    (forall fuel : nat, (fuel0 <= fuel)%nat ->
       NewClientPacket fuel endian.Little TypeCommand hello
         MordhauRestrictedPacketIDs 54320
       = Some (p, id p))
    /\ mode p = endian.Little /\ pType p = TypeCommand /\ body p = hello
    /\ legalID (id p)
    /\ MordhauBroadcastChecker p = false.
Proof.
  apply (NewClientPacket_not_broadcast endian.Little TypeCommand hello 54320).
  unfold MaxInt32. lia.
Defined.

Lemma MordhauBroadcastChecker_range_witness :
  MordhauBroadcastChecker chatBroadcast = true.
Proof.
  apply (proj2 (MordhauBroadcastChecker_range chatBroadcast)).
  simpl. lia.
Defined.

(** After the counter value 54320 the next ID under the preset is 54331. *)
Example NewClientPacket_skips_preset :
  NewClientPacket 11 endian.Little TypeCommand hello
    MordhauRestrictedPacketIDs 54320
  = Some (mkClientPacket endian.Little TypeCommand hello 54331, 54331).
Proof. reflexivity. Qed.

End Mordhau.

(** ** The decoder on streams *)

Section DecoderStreams.
Import packet.

(** X6: two frames one after the other on a stream are decoded one after
    the other: the first call returns the first packet and leaves the
    stream at the second frame, and the second call returns the second
    packet and leaves what follows. *)
Theorem DecodeClientPacket_sequence (m : endian.Mode) (i1 t1 i2 t2 : Z)
    (raw1 raw2 tl : list byte) (e : ioerror) :
  in_int32 i1 -> in_int32 t1 -> Z.of_nat (length raw1) + 8 <= MaxInt32 ->
  in_int32 i2 -> in_int32 t2 -> Z.of_nat (length raw2) + 8 <= MaxInt32 ->
  exists r1 : Reader,
    DecodeClientPacket m
      (mkReader (frame m (Z.of_nat (length raw1) + 8) i1 t1 raw1
                 ++ frame m (Z.of_nat (length raw2) + 8) i2 t2 raw2 ++ tl) e)
    = Decoded
        (mkClientPacket m t1 (bytes.Trim (bytes.Trim raw1 NUL) LF) i1) r1
    /\ DecodeClientPacket m r1
       = Decoded
           (mkClientPacket m t2 (bytes.Trim (bytes.Trim raw2 NUL) LF) i2)
           (mkReader tl e).
Proof.
  intros Hi1 Ht1 Hl1 Hi2 Ht2 Hl2.
  exists (mkReader (frame m (Z.of_nat (length raw2) + 8) i2 t2 raw2 ++ tl) e).
  split; now apply DecodeClientPacket_frame.
Qed.

Lemma DecodeClientPacket_sequence_witness :
  exists r1 : Reader,
    DecodeClientPacket endian.Little
      (mkReader (frame endian.Little (Z.of_nat (length hello) + 8) 1 0 hello
                 ++ frame endian.Little (Z.of_nat (length status) + 8) 2 0
                      status ++ []) EOF)
    = Decoded
        (mkClientPacket endian.Little 0
           (bytes.Trim (bytes.Trim hello NUL) LF) 1) r1
    /\ DecodeClientPacket endian.Little r1
       = Decoded
           (mkClientPacket endian.Little 0
              (bytes.Trim (bytes.Trim status NUL) LF) 2)
           (mkReader [] EOF).
Proof.
  apply (DecodeClientPacket_sequence endian.Little 1 0 2 0 hello status [] EOF);
    unfold in_int32, MinInt32, MaxInt32; simpl; lia.
Defined.

(** The error of a read that finds too few bytes. *)
Lemma ReadFull_short_error (r : Reader) (n : nat) :
  (length (pending r) < n)%nat ->
  ReadFull r n
  = inr (if negb (length (pending r) =? 0)%nat && ioerror_is_EOF (closing r)
         then ErrUnexpectedEOF else closing r).
Proof.
  intros H. unfold ReadFull.
  destruct (Nat.eqb_spec n 0); [lia|].
  destruct (Nat.leb_spec n (length (pending r))); [lia|].
  destruct (_ && _); reflexivity.
Qed.

(** X7: a stream that delivers the header and then fewer body bytes than
    the header announces makes [DecodeClientPacket] return an error, and
    no packet: [ErrUnexpectedEOF] when the stream ends with [EOF] after a
    part of the body, and the error of the stream itself otherwise. *)
Theorem DecodeClientPacket_short_body (m : endian.Mode) (i t : Z)
    (part : list byte) (announced : nat) (e : ioerror) :
  (length part < announced)%nat ->
  Z.of_nat announced + 8 <= MaxInt32 ->
  DecodeClientPacket m
    (mkReader (frame m (Z.of_nat announced + 8) i t part) e)
  = DecodeErr (match part, e with
               | _ :: _, EOF => ErrUnexpectedEOF
               | _, _ => e
               end).
Proof.
  intros Hshort Hmax. unfold DecodeClientPacket, frame.
  rewrite !Read_PutUint32.
  fold (bodyLenOf (int32 (Z.of_nat announced + 8))).
  rewrite bodyLenOf_eq, int32_sub_l.
  replace (Z.of_nat announced + 8 - 8) with (Z.of_nat announced) by lia.
  rewrite int32_id by (unfold in_int32, MinInt32, MaxInt32 in *; lia).
  destruct (Z.ltb_spec (Z.of_nat announced) 0); [lia|].
  rewrite Nat2Z.id, ReadFull_short_error by exact Hshort.
  cbn [pending closing]. destruct part, e; reflexivity.
Qed.

Lemma DecodeClientPacket_short_body_witness :
  DecodeClientPacket endian.Little
    (mkReader (frame endian.Little (Z.of_nat 13 + 8) 1 0 status) EOF)
  = DecodeErr ErrUnexpectedEOF.
Proof.
  apply (DecodeClientPacket_short_body endian.Little 1 0 status 13 EOF).
  - simpl. lia.
  - unfold MaxInt32. lia.
Defined.

(** X8: a stream that ends with [EOF] inside the header: the decoder
    returns [EOF] when the stream is empty or stops at the end of a header
    word, and [ErrUnexpectedEOF] when it stops inside a word. *)
Theorem DecodeClientPacket_short_header (m : endian.Mode) (bs : list byte) :
  (length bs < 12)%nat ->
  DecodeClientPacket m (mkReader bs EOF)
  = DecodeErr (if (length bs mod 4 =? 0)%nat then EOF else ErrUnexpectedEOF).
Proof.
  intros H.
  do 12 (destruct bs as [|? bs]; [reflexivity|]).
  cbn [length] in H. lia.
Qed.

Lemma DecodeClientPacket_short_header_witness :
  DecodeClientPacket endian.Big
    (mkReader [Byte.x00; Byte.x00; Byte.x00; Byte.x0a; Byte.x00] EOF)
  = DecodeErr ErrUnexpectedEOF.
Proof.
  apply (DecodeClientPacket_short_header endian.Big
           [Byte.x00; Byte.x00; Byte.x00; Byte.x0a; Byte.x00]).
  simpl. lia.
Defined.

End DecoderStreams.

(** ** The older codec and exchange *)

Section LegacyCodec.
Import payload.

Lemma getSize_small (p : payload) :
  Z.of_nat (length (Body p)) + 14 < 2048 ->
  getSize p = Z.of_nat (length (Body p)) + 10.
Proof.
  intros H. unfold getSize, payloadIDBytes, payloadTypeBytes, payloadNullBytes.
  apply int32_id. unfold in_int32, MinInt32, MaxInt32. lia.
Qed.

(** The frame that the older builder makes. *)
Lemma buildPacketFromPayload_frame (p : payload) :
  Z.of_nat (length (Body p)) + 14 < 2048 ->
  buildPacketFromPayload p
  = (frame endian.Little (Z.of_nat (length (Body p ++ [NUL; NUL])) + 8)
       (ID p) (Type_ p) (Body p ++ [NUL; NUL]), None).
Proof.
  intros H. rewrite buildPacketFromPayload_fits by exact H.
  rewrite getSize_small by exact H. unfold frame.
  rewrite length_app. cbn [length].
  replace (Z.of_nat (length (Body p) + 2) + 8)
    with (Z.of_nat (length (Body p)) + 10) by lia.
  reflexivity.
Qed.

(** X9: the older builder returns an error exactly when the body has 2034
    bytes or more, that is when the frame would have 2048 bytes or more;
    a frame it returns has [len(body) + 14] bytes. *)
Theorem buildPacketFromPayload_limit (p : payload) :
  (snd (buildPacketFromPayload p)
   = Some (Errorf "payload too large, max size is: 2048")
   <-> 2034 <= Z.of_nat (length (Body p)))
  /\ (snd (buildPacketFromPayload p) = None
      <-> Z.of_nat (length (Body p)) < 2034)
  /\ (Z.of_nat (length (Body p)) < 2034 ->
      Z.of_nat (length (fst (buildPacketFromPayload p)))
      = Z.of_nat (length (Body p)) + 14).
Proof.
  destruct (Z.lt_ge_cases (Z.of_nat (length (Body p))) 2034) as [Hs|Hl].
  - rewrite buildPacketFromPayload_fits by lia. cbn [fst snd].
    rewrite legacy_buffer_length.
    repeat split; intros; try discriminate; try reflexivity; lia.
  - rewrite buildPacketFromPayload_too_large by lia. cbn [fst snd].
    repeat split; intros; try discriminate; try reflexivity; lia.
Qed.

Lemma buildPacketFromPayload_limit_witness :
  Z.of_nat (length (fst (buildPacketFromPayload (mkPayload 1 2 hello))))
  = Z.of_nat (length hello) + 14.
Proof.
  apply (proj2 (proj2 (buildPacketFromPayload_limit (mkPayload 1 2 hello)))).
  simpl. lia.
Defined.

(** X10: in every frame that the older builder returns, the size field
    counts the bytes that follow it: it is the length of the frame less 4,
    and [len(body) + 10]. *)
Theorem legacy_size_field (p : payload) :
  Z.of_nat (length (Body p)) < 2034 ->
  sizeField endian.Little (fst (buildPacketFromPayload p))
  = Z.of_nat (length (fst (buildPacketFromPayload p))) - 4
  /\ sizeField endian.Little (fst (buildPacketFromPayload p))
     = Z.of_nat (length (Body p)) + 10.
Proof.
  intros H.
  assert (sizeField endian.Little (fst (buildPacketFromPayload p))
          = Z.of_nat (length (fst (buildPacketFromPayload p))) - 4) as Hs.
  { apply (buildPacketFromPayload_size_field p).
    now rewrite buildPacketFromPayload_fits by lia. }
  split; [exact Hs|]. rewrite Hs.
  rewrite buildPacketFromPayload_fits by lia. cbn [fst].
  rewrite legacy_buffer_length. lia.
Qed.

Lemma legacy_size_field_witness :
  sizeField endian.Little (fst (buildPacketFromPayload (mkPayload 1 2 hello)))
  = Z.of_nat (length (fst (buildPacketFromPayload (mkPayload 1 2 hello)))) - 4
  /\ sizeField endian.Little (fst (buildPacketFromPayload (mkPayload 1 2 hello)))
     = Z.of_nat (length (Body (mkPayload 1 2 hello))) + 10.
Proof.
  apply (legacy_size_field (mkPayload 1 2 hello)). simpl. lia.
Defined.

(** X11: the older codec round trip: for a payload with ID and type in
    [int32], a body of fewer than 2034 bytes and no null byte in it, the
    frame built by [buildPacketFromPayload] is read back by
    [buildPayloadFromPacket] as the same ID and type and the body without
    its leading and trailing newline bytes; an empty body comes back
    empty. *)
Theorem legacy_roundtrip (p : payload) (tl : list byte) (e : ioerror) :
  in_int32 (ID p) -> in_int32 (Type_ p) ->
  Z.of_nat (length (Body p)) < 2034 ->
  Forall (fun x => x <> NUL) (Body p) ->
  snd (buildPacketFromPayload p) = None
  /\ buildPayloadFromPacket
       (mkReader (fst (buildPacketFromPayload p) ++ tl) e)
     = inl (mkPayload (ID p) (Type_ p) (bytes.Trim (Body p) LF),
            mkReader tl e)
  /\ (no_lead LF (Body p) -> no_trail LF (Body p) ->
      bytes.Trim (Body p) LF = Body p).
Proof.
  intros Hi Ht Hlen Hnul.
  rewrite buildPacketFromPayload_frame by lia. cbn [fst snd].
  split; [reflexivity|]. split; [|apply Trim_id].
  rewrite buildPayloadFromPacket_frame; try assumption.
  - change [NUL; NUL] with (repeat NUL 2). rewrite Trim_padded by exact Hnul.
    destruct (Body p); reflexivity.
  - rewrite length_app. cbn [length]. unfold MaxInt32. lia.
Qed.

Lemma legacy_roundtrip_witness :
  snd (buildPacketFromPayload (mkPayload 1 2 hello)) = None
  /\ buildPayloadFromPacket
       (mkReader (fst (buildPacketFromPayload (mkPayload 1 2 hello)) ++ []) EOF)
     = inl (mkPayload 1 2 (bytes.Trim hello LF), mkReader [] EOF)
  /\ (no_lead LF hello -> no_trail LF hello -> bytes.Trim hello LF = hello).
Proof.
  apply (legacy_roundtrip (mkPayload 1 2 hello) [] EOF).
  - unfold in_int32, MinInt32, MaxInt32. simpl. lia.
  - unfold in_int32, MinInt32, MaxInt32. simpl. lia.
  - simpl. lia.
  - repeat constructor; discriminate.
Defined.

(** X12: the older decoder never reads a body of less than one byte: on
    a stream that delivers the header, an announced size [s] for which
    [s - 8], taken in [int32], is below 1 gives the error "empty packet
    body received", where [DecodeClientPacket] panics or returns an empty
    body. *)
Theorem buildPayloadFromPacket_empty_body (r : Reader) :
  (12 <= length (pending r))%nat ->
  int32 (announcedSize endian.Little r - 8) < 1 ->
  buildPayloadFromPacket r = inr (Errorf "empty packet body received").
Proof.
  intros Hlen Hs. unfold buildPayloadFromPacket.
  rewrite Read_enough by lia.
  rewrite Read_enough by (cbn [pending]; rewrite length_skipn; lia).
  cbn [pending closing]. rewrite drop_drop.
  rewrite Read_enough by (cbn [pending]; rewrite length_skipn; lia).
  unfold payloadIDBytes, payloadTypeBytes.
  rewrite (int32_id (4 + 4)) by (unfold in_int32, MinInt32, MaxInt32; lia).
  unfold announcedSize, sizeField in Hs. change (4 + 4) with 8.
  destruct (Z.ltb_spec
              (int32 (int32 (binary.Uint32 endian.Little (take 4 (pending r))) - 8))
              1); [reflexivity|lia].
Qed.

Lemma buildPayloadFromPacket_empty_body_witness :
  buildPayloadFromPacket (mkReader (frame endian.Little 7 1 0 []) EOF)
  = inr (Errorf "empty packet body received").
Proof.
  apply (buildPayloadFromPacket_empty_body
           (mkReader (frame endian.Little 7 1 0 []) EOF)).
  - simpl. lia.
  - vm_compute. reflexivity.
Defined.

(** X13: the frame of a body of length zero (announced size 8):
    [DecodeClientPacket] returns the packet with an empty body, and the
    older decoder returns the empty-body error. *)
Theorem zero_length_body (i t : Z) (tl : list byte) (e : ioerror) :
  in_int32 i -> in_int32 t ->
  packet.DecodeClientPacket endian.Little
    (mkReader (frame endian.Little 8 i t [] ++ tl) e)
  = packet.Decoded (packet.mkClientPacket endian.Little t [] i) (mkReader tl e)
  /\ buildPayloadFromPacket (mkReader (frame endian.Little 8 i t [] ++ tl) e)
     = inr (Errorf "empty packet body received").
Proof.
  intros Hi Ht. split.
  - apply (DecodeClientPacket_frame endian.Little i t [] tl e Hi Ht).
    unfold MaxInt32. simpl. lia.
  - apply (buildPayloadFromPacket_frame i t [] tl e Hi Ht).
    unfold MaxInt32. simpl. lia.
Qed.

Lemma zero_length_body_witness :
  packet.DecodeClientPacket endian.Little
    (mkReader (frame endian.Little 8 5 0 [] ++ []) EOF)
  = packet.Decoded (packet.mkClientPacket endian.Little 0 [] 5) (mkReader [] EOF)
  /\ buildPayloadFromPacket (mkReader (frame endian.Little 8 5 0 [] ++ []) EOF)
     = inr (Errorf "empty packet body received").
Proof.
  apply (zero_length_body 5 0 [] EOF); unfold in_int32, MinInt32, MaxInt32; lia.
Defined.

(** X14: [sendPayload] writes nothing when the request is too large: it
    returns the error of the builder, whatever the connection would do. *)
Theorem sendPayload_too_large (werr : option ioerror) (conn : Reader)
    (request : payload) :
  2034 <= Z.of_nat (length (Body request)) ->
  sendPayload werr conn request
  = mkExchange None (inr (Errorf "payload too large, max size is: 2048")).
Proof.
  intros H. unfold sendPayload.
  now rewrite buildPacketFromPayload_too_large by lia.
Qed.

Lemma sendPayload_too_large_witness :
  sendPayload None (mkReader [] EOF)
    (mkPayload 1 2 (repeat Byte.x61 2034))
  = mkExchange None (inr (Errorf "payload too large, max size is: 2048")).
Proof.
  apply (sendPayload_too_large None (mkReader [] EOF)
           (mkPayload 1 2 (repeat Byte.x61 2034))).
  vm_compute. discriminate.
Defined.





End LegacyCodec.

(** ** The session: authentication and connection, continued *)

Section ConnectMore.
Import packet rcon.

(** X17: [authenticate] sends one AUTH packet with the password as body
    and a fresh ID; when the response is of the type [TypeAuthRes] it
    returns an error whose cause is [ErrAuthentication] if the ID of the
    response is -1, and nil for every other ID. *)
Theorem authenticate_auth_response (fuel : nat) (env : ReadEnv) (s : State)
    (p res : ClientPacket) (n : Z) (rest : Reader) :
  conn s = true ->
  NewClientPacket fuel (EndianMode s) TypeAuth (Password s)
    (RestrictedPacketIDs s) (nextClientPacketID s) = Some (p, n) ->
  deadlineErr env = None ->
  DecodeClientPacket (EndianMode s) (inbound env) = Decoded res rest ->
  pType res = TypeAuthRes ->
  body p = Password s /\ pType p = TypeAuth /\ id p = n
  /\ exists r : option error,
       authenticate fuel None env s
       = Returns r
           (emit (EvSocketWrite (fst (Build p))) (set_nextClientPacketID n s))
       /\ (id res = -1 ->
           exists err : error,
             r = Some err /\ errors.Cause err = ErrAuthentication)
       /\ (id res <> -1 -> r = None).
Proof.
  intros Hc Hp Hd Hr Ht.
  assert (body p = Password s /\ pType p = TypeAuth /\ id p = n) as Hpk.
  { unfold NewClientPacket in Hp.
    destruct (getNextID _ _ _); [|discriminate].
    injection Hp as <- <-. repeat split. }
  split; [apply Hpk|]. split; [apply Hpk|]. split; [apply Hpk|].
  eexists. split; [apply (authenticate_verdict fuel env s p res n rest);
                   assumption|].
  rewrite Ht. cbn [negb Z.eqb TypeAuthRes]. unfold AuthFailedID.
  change (negb (TypeAuthRes =? TypeAuthRes)) with false. cbv iota.
  split.
  - intros ->. eexists. split; reflexivity.
  - intros Hne. destruct (Z.eqb_spec (id res) (-1)); [contradiction|].
    reflexivity.
Qed.

Lemma authenticate_auth_response_witness :
  let p := mkClientPacket endian.Little TypeAuth
             (list_byte_of_string "RconPassword") 1 in
  let s := set_conn true (NewClient sampleConfig 0) in
  let res := mkClientPacket endian.Little TypeAuthRes [] (-1) in
  body p = Password s /\ pType p = TypeAuth /\ id p = 1
  /\ exists r : option error,
       authenticate 1 None (authRead refusedEnv) s
       = Returns r
           (emit (EvSocketWrite (fst (Build p))) (set_nextClientPacketID 1 s))
       /\ (id res = -1 ->
           exists err : error,
             r = Some err /\ errors.Cause err = ErrAuthentication)
       /\ (id res <> -1 -> r = None).
Proof.
  cbv zeta.
  apply (authenticate_auth_response 1 (authRead refusedEnv)
           (set_conn true (NewClient sampleConfig 0))
           (mkClientPacket endian.Little TypeAuth
              (list_byte_of_string "RconPassword") 1)
           (mkClientPacket endian.Little TypeAuthRes [] (-1)) 1
           (mkReader [] EOF)); reflexivity.
Defined.

(** [authenticate] leaves the connection, the channels, the fibers and
    the mailboxes alone, however it ends. *)
Lemma authenticate_untouched (fuel : nat) (werr : option ioerror)
    (env : ReadEnv) (s : State) :
  untouched s (final_state (authenticate fuel werr env s)).
Proof.
  unfold authenticate, bind, gets, newClientPacket.
  destruct (NewClientPacket _ _ _ _ _ _) as [[p n]|]; [|repeat split].
  unfold sendPacket. rewrite (surjective_pairing (Build p)), Build_no_error.
  unfold bind, write, ret. cbn [conn set_nextClientPacketID].
  destruct (conn s) eqn:Hc; [|repeat split; assumption].
  destruct werr as [e|]; [repeat split; assumption|].
  unfold readPacketTimeout, readPacket.
  cbn [conn emit set_nextClientPacketID EndianMode]. rewrite Hc. cbn [negb].
  destruct (deadlineErr env).
  { destruct (HasSuffix _ _); repeat split; assumption. }
  destruct (DecodeClientPacket _ _) as [res rest|e|].
  - destruct (negb _); [repeat split; assumption|].
    destruct (_ =? _); repeat split; assumption.
  - destruct (HasSuffix _ _); repeat split; assumption.
  - repeat split; assumption.
Qed.

(** X18: when the write of the AUTH packet fails, [authenticate] returns
    an error whose cause is the error of the write, and reads nothing;
    when the read of the response fails, it returns an error whose cause
    is [ErrNotConnected] if the text of the read error ends in "use of
    closed network connection", and the read error itself otherwise. *)
Theorem authenticate_transport_errors (fuel : nat) (env : ReadEnv)
    (s : State) (p : ClientPacket) (n : Z) :
  conn s = true ->
  NewClientPacket fuel (EndianMode s) TypeAuth (Password s)
    (RestrictedPacketIDs s) (nextClientPacketID s) = Some (p, n) ->
  (forall e : ioerror,
      exists err : error,
        authenticate fuel (Some e) env s
        = Returns (Some err) (set_nextClientPacketID n s)
        /\ errors.Cause err = Io e)
  /\ (forall e : ioerror,
         deadlineErr env = None ->
         DecodeClientPacket (EndianMode s) (inbound env) = DecodeErr e ->
         exists err : error,
           authenticate fuel None env s
           = Returns (Some err)
               (emit (EvSocketWrite (fst (Build p)))
                  (set_nextClientPacketID n s))
           /\ errors.Cause err
              = (if HasSuffix (Error e) closedConnText
                 then ErrNotConnected else Io e)).
Proof.
  intros Hc Hp. split.
  - intros e. eexists.
    unfold authenticate, bind, gets, newClientPacket. rewrite Hp.
    unfold sendPacket. rewrite (surjective_pairing (Build p)), Build_no_error.
    unfold bind, write, ret. cbn [conn set_nextClientPacketID]. rewrite Hc.
    split; reflexivity.
  - intros e Hd Hr.
    unfold authenticate, bind, gets, newClientPacket. rewrite Hp.
    unfold sendPacket. rewrite (surjective_pairing (Build p)), Build_no_error.
    unfold bind, write, ret. cbn [conn set_nextClientPacketID]. rewrite Hc.
    unfold readPacketTimeout, readPacket.
    cbn [conn emit set_nextClientPacketID EndianMode]. rewrite Hc.
    cbn [negb]. rewrite Hd, Hr.
    destruct (HasSuffix _ _); eexists; split; reflexivity.
Qed.

Lemma authenticate_transport_errors_witness :
  exists err : error,
    authenticate 1 (Some ErrClosedPipe) (authRead grantedEnv)
      (set_conn true (NewClient sampleConfig 0))
    = Returns (Some err)
        (set_nextClientPacketID 1 (set_conn true (NewClient sampleConfig 0)))
    /\ errors.Cause err = Io ErrClosedPipe.
Proof.
  apply (proj1 (authenticate_transport_errors 1 (authRead grantedEnv)
                  (set_conn true (NewClient sampleConfig 0))
                  (mkClientPacket endian.Little TypeAuth
                     (list_byte_of_string "RconPassword") 1) 1
                  eq_refl eq_refl) ErrClosedPipe).
Defined.




(** [disconnect] on a session that is open. *)
Lemma disconnect_open (err : option error) (s : State) :
  conn s = true -> terminate s = false ->
  exists s' : State,
    disconnect err s = Returns tt s'
    /\ conn s' = false /\ terminate s' = true
    /\ trace s' = trace s ++ shutdownEvents (hasDisconnectHandler s) err
    /\ writerRunning s' = writerRunning s /\ readQueue s' = readQueue s.
Proof.
  intros Hc Ht. unfold disconnect, bind, gets, modify, ret.
  rewrite Ht. cbn [conn emit set_terminate]. rewrite Hc. cbn [negb].
  cbn [hasDisconnectHandler set_conn emit set_terminate].
  unfold shutdownEvents.
  destruct (hasDisconnectHandler s); eexists; (split; [reflexivity|]);
    cbn [conn terminate trace writerRunning readQueue emit set_conn
         set_terminate];
    rewrite <- ?app_assoc; repeat split.
Qed.

(** X20: a [Connect] that fails after the dial -- in [SetDeadline] or in
    [authenticate] -- starts no fiber and leaves the socket handle set and
    the socket open; a [Close] after it shuts the session down and runs the
    disconnect handler with a nil error and [expected = true]. *)
Theorem Connect_failure_keeps_socket (fuel : nat) (env : ConnectEnv)
    (s s' : State) (err : error) :
  dialErr env = None -> dialIsTCP env = true ->
  Connect fuel env s = Returns (Some err) s' ->
  conn s' = true /\ writerRunning s' = writerRunning s
  /\ terminate s' = terminate s
  /\ (terminate s = false ->
      exists s2 : State,
        Close s' = Returns None s2 /\ conn s2 = false
        /\ trace s2
           = trace s' ++ shutdownEvents (hasDisconnectHandler s) None).
Proof.
  intros Hd Ht H.
  assert (untouched (set_conn true s) s') as (Hc & Htm & Hw & Hq & Hh).
  { unfold Connect in H. rewrite Hd, Ht in H. cbv zeta in H.
    unfold bind at 1 in H. unfold modify at 1 in H. cbn [negb] in H.
    destruct (connDeadlineErr env).
    - injection H as _ <-. repeat split.
    - unfold bind at 1 in H.
      pose proof (authenticate_untouched fuel (authWriteErr env) (authRead env)
                    (set_conn true s)) as Hu.
      destruct (authenticate fuel _ _ _) as [[e|] s1| |];
        cbn [final_state] in Hu; try discriminate.
      injection H as _ <-. exact Hu. }
  cbn [conn terminate writerRunning hasDisconnectHandler set_conn] in *.
  repeat split; try assumption.
  intros Hopen.
  destruct (disconnect_open None s') as (s2 & H2 & Hc2 & _ & Htr & _);
    [assumption|congruence|].
  exists s2. unfold Close, bind, gets, ret. rewrite Hc. cbn [negb].
  rewrite H2. rewrite Hh in Htr. repeat split; assumption.
Qed.

Lemma Connect_failure_keeps_socket_witness :
  let s' := final_state (Connect 1 refusedEnv (NewClient sampleConfig 0)) in
  conn s' = true
  /\ writerRunning s' = writerRunning (NewClient sampleConfig 0)
  /\ terminate s' = terminate (NewClient sampleConfig 0)
  /\ (terminate (NewClient sampleConfig 0) = false ->
      exists s2 : State,
        Close s' = Returns None s2 /\ conn s2 = false
        /\ trace s2
           = trace s'
             ++ shutdownEvents
                  (hasDisconnectHandler (NewClient sampleConfig 0)) None).
Proof.
  apply (Connect_failure_keeps_socket 1 refusedEnv (NewClient sampleConfig 0)
           (final_state (Connect 1 refusedEnv (NewClient sampleConfig 0)))
           (withMessage ErrAuthentication "authentication failed"));
    vm_compute; reflexivity.
Defined.

(** X21: a client is not fit for a second session: once the termination
    channel is closed, a [Connect] that succeeds gives a session whose
    [Close] panics on the closed channel, and whose new writer fiber
    returns at its first turn. *)
Theorem Connect_after_shutdown (fuel : nat) (env : ConnectEnv)
    (s s' : State) :
  terminate s = true -> dialIsTCP env = true ->
  Connect fuel env s = Returns None s' ->
  conn s' = true /\ terminate s' = true
  /\ Close s' = Panics "close of closed channel" s'
  /\ writerTurn None s' = Returns tt (set_writerRunning false s').
Proof.
  intros Htm Ht H.
  assert (conn s' = true /\ terminate s' = true) as [Hc Hcl].
  { unfold Connect in H. destruct (dialErr env); [discriminate|].
    rewrite Ht in H. cbv zeta in H.
    unfold bind at 1 in H. unfold modify at 1 in H. cbn [negb] in H.
    destruct (connDeadlineErr env); [discriminate|].
    unfold bind at 1 in H.
    pose proof (authenticate_untouched fuel (authWriteErr env) (authRead env)
                  (set_conn true s)) as (Hc & Hcl & _).
    destruct (authenticate fuel _ _ _) as [[e|] s1| |];
      cbn [final_state] in Hc, Hcl; try discriminate.
    unfold bind, modify, ret in H. injection H as <-.
    cbn [conn terminate emit set_writerRunning set_conn] in *.
    split; congruence. }
  repeat split; try assumption.
  - unfold Close, disconnect, bind, gets, panic. rewrite Hc. cbn [negb].
    now rewrite Hcl.
  - unfold writerTurn, bind, gets, modify. now rewrite Hcl.
Qed.

Lemma Connect_after_shutdown_witness :
  let s' := final_state (Connect 1 grantedEnv closed) in
  conn s' = true /\ terminate s' = true
  /\ Close s' = Panics "close of closed channel" s'
  /\ writerTurn None s' = Returns tt (set_writerRunning false s').
Proof.
  apply (Connect_after_shutdown 1 grantedEnv closed
           (final_state (Connect 1 grantedEnv closed)));
    vm_compute; reflexivity.
Defined.

End ConnectMore.

(** ** The session: commands, continued *)

Section CommandsMore.
Import packet rcon.

(** X22: every [ExecCommand] returns, with one of three results: the body
    of the delivered response, byte for byte, when the writer takes the
    packet and a response is delivered; the read-timeout error when none
    is delivered; the queue-timeout error when the writer does not take
    the packet.  After a hand-off there is no mailbox left for the ID of
    the command, whichever the result, and the mailboxes of other IDs are
    as before; the connection and the termination channel are not
    touched. *)
Theorem ExecCommand_outcome (s : State) (command : list byte) (env : ExecEnv) :
  canAllocate s ->
  exists (fuel0 : nat) (v : Z) (s' : State),
    legalID v /\ idInArr (RestrictedPacketIDs s) v = false
    /\ (forall fuel : nat, (fuel0 <= fuel)%nat ->
          ExecCommand fuel command env s
          = Returns
              (if writerRunning s && taken env
               then match delivered env with
                    | Some res => (body res, None)
                    | None => ([], Some readTimeout)
                    end
               else ([], Some queueTimeout))
              s')
    /\ nextClientPacketID s' = v
    /\ readQueue s'
       = (if writerRunning s && taken env
          then delete v (readQueue s) else readQueue s)
    /\ (forall j : Z, j <> v -> readQueue s' !! j = readQueue s !! j)
    /\ conn s' = conn s /\ terminate s' = terminate s.
Proof.
  intros Ha.
  destruct (newClientPacket_returns s Ha) as (v & fuel0 & Hl & HR & Hp).
  set (p := mkClientPacket (EndianMode s) TypeCommand command v).
  set (s1 := set_nextClientPacketID v s).
  set (s' :=
         if writerRunning s && taken env
         then emit (EvMailboxRemoved v)
                (set_readQueue (delete v (readQueue s))
                   (emit (EvMailboxCreated v) (emit (EvQueued p) s1)))
         else s1).
  exists fuel0, v, s'. split; [exact Hl|]. split; [exact HR|].
  split; [|subst s' s1; destruct (writerRunning s && taken env);
           cbn [nextClientPacketID readQueue conn terminate emit set_readQueue
                set_nextClientPacketID];
           repeat split; try reflexivity;
           intros j Hj; now rewrite ?lookup_delete_ne by congruence].
  intros fuel Hf. unfold ExecCommand, bind at 1.
  rewrite (Hp fuel TypeCommand command Hf). fold p s1.
  unfold enqueuePacket, bind, gets, modify, ret.
  change (writerRunning s1) with (writerRunning s). subst s'.
  destruct (writerRunning s && taken env); [|reflexivity].
  unfold getResponse, bind, gets, modify, ret.
  cbn [readQueue emit set_readQueue ID id p]. rewrite lookup_insert_eq.
  rewrite delete_insert_eq.
  change (readQueue s1) with (readQueue s).
  destruct (delivered env) as [res|].
  - unfold Body. rewrite length_app. cbn [length].
    replace (length (body res) + 1 - 1)%nat with (length (body res)) by lia.
    rewrite take_app_length. reflexivity.
  - reflexivity.
Qed.

Lemma ExecCommand_outcome_witness :
  exists (fuel0 : nat) (v : Z) (s' : State),
    legalID v /\ idInArr (RestrictedPacketIDs connected) v = false
    /\ (forall fuel : nat, (fuel0 <= fuel)%nat ->
          ExecCommand fuel status (mkExecEnv true (Some okResponse)) connected
          = Returns
              (if writerRunning connected && true
               then match Some okResponse with
                    | Some res => (body res, None)
                    | None => ([], Some readTimeout)
                    end
               else ([], Some queueTimeout))
              s')
    /\ nextClientPacketID s' = v
    /\ readQueue s'
       = (if writerRunning connected && true
          then delete v (readQueue connected) else readQueue connected)
    /\ (forall j : Z, j <> v -> readQueue s' !! j = readQueue connected !! j)
    /\ conn s' = conn connected /\ terminate s' = terminate connected.
Proof.
  apply (ExecCommand_outcome connected status
           (mkExecEnv true (Some okResponse))).
  split; [vm_compute; split; discriminate|].
  exists 2. split; [unfold legalID, MaxInt32; lia|reflexivity].
Defined.

(** X23: [ExecCommandNoResponse] returns nil exactly when the writer takes
    the packet, and the queue-timeout error otherwise; it creates no
    mailbox and waits for no response: the table of mailboxes is as
    before, and the only event is the hand-off. *)
Theorem ExecCommandNoResponse_outcome (s : State) (command : list byte)
    (taken : bool) :
  canAllocate s ->
  exists (fuel0 : nat) (p : ClientPacket) (s' : State),
    body p = command /\ pType p = TypeCommand /\ legalID (id p)
    /\ (forall fuel : nat, (fuel0 <= fuel)%nat ->
          ExecCommandNoResponse fuel command taken s
          = Returns
              (if writerRunning s && taken then None else Some queueTimeout)
              s')
    /\ readQueue s' = readQueue s
    /\ trace s'
       = trace s ++ (if writerRunning s && taken then [EvQueued p] else []).
Proof.
  intros Ha.
  destruct (newClientPacket_returns s Ha) as (v & fuel0 & Hl & HR & Hp).
  set (p := mkClientPacket (EndianMode s) TypeCommand command v).
  set (s1 := set_nextClientPacketID v s).
  exists fuel0, p,
    (if writerRunning s && taken then emit (EvQueued p) s1 else s1).
  split; [reflexivity|]. split; [reflexivity|]. split; [exact Hl|].
  split; [|destruct (writerRunning s && taken);
           cbn [readQueue trace emit s1 set_nextClientPacketID];
           rewrite ?app_nil_r; split; reflexivity].
  intros fuel Hf. unfold ExecCommandNoResponse, bind at 1.
  rewrite (Hp fuel TypeCommand command Hf). fold p s1.
  unfold enqueuePacket, bind, gets, modify, ret.
  change (writerRunning s1) with (writerRunning s).
  destruct (writerRunning s && taken); reflexivity.
Qed.

Lemma ExecCommandNoResponse_outcome_witness :
  exists (fuel0 : nat) (p : ClientPacket) (s' : State),
    body p = status /\ pType p = TypeCommand /\ legalID (id p)
    /\ (forall fuel : nat, (fuel0 <= fuel)%nat ->
          ExecCommandNoResponse fuel status true connected
          = Returns
              (if writerRunning connected && true
               then None else Some queueTimeout)
              s')
    /\ readQueue s' = readQueue connected
    /\ trace s'
       = trace connected
         ++ (if writerRunning connected && true then [EvQueued p] else []).
Proof.
  apply (ExecCommandNoResponse_outcome connected status true).
  split; [vm_compute; split; discriminate|].
  exists 2. split; [unfold legalID, MaxInt32; lia|reflexivity].
Defined.

End CommandsMore.

(** ** The session: the reader and the writer *)

Section Fibers.
Import packet rcon.

(** X24: what the reader does with an error of the decoder.  On [EOF]
    and on [ErrClosedPipe] it shuts the session down: the termination
    channel is closed, the socket is closed and its handle set to nil,
    and the disconnect handler runs with the error and [expected = false].
    On every other error -- [ErrUnexpectedEOF], a timeout, a closed
    connection -- it leaves the session as it is and goes on. *)
Theorem readerTurn_read_error (env : ReadEnv) (dispatched : bool)
    (s : State) (e : ioerror) :
  conn s = true -> terminate s = false -> deadlineErr env = None ->
  DecodeClientPacket (EndianMode s) (inbound env) = DecodeErr e ->
  match e with
  | EOF | ErrClosedPipe =>
      exists s' : State,
        readerTurn env dispatched s = Returns tt s'
        /\ conn s' = false /\ terminate s' = true
        /\ trace s'
           = trace s
             ++ shutdownEvents (hasDisconnectHandler s)
                  (Some (withMessage (Io e) "could not read packet"))
  | _ => readerTurn env dispatched s = Returns tt s
  end.
Proof.
  intros Hc Ht Hd Hr.
  assert (readerTurn env dispatched s
          = match e with
            | EOF | ErrClosedPipe =>
                disconnect (Some (withMessage (Io e) "could not read packet")) s
            | _ => Returns tt s
            end) as H.
  { unfold readerTurn, bind, readPacket. rewrite Hc. cbn [negb].
    rewrite Hd, Hr.
    destruct e as [| | |msg]; try reflexivity.
    destruct (HasSuffix _ _); reflexivity. }
  rewrite H.
  destruct e as [| | |msg]; try reflexivity.
  - destruct (disconnect_open
                (Some (withMessage (Io EOF) "could not read packet")) s Hc Ht)
      as (s' & H1 & H2 & H3 & H4 & _).
    exists s'. repeat split; assumption.
  - destruct (disconnect_open
                (Some (withMessage (Io ErrClosedPipe) "could not read packet"))
                s Hc Ht)
      as (s' & H1 & H2 & H3 & H4 & _).
    exists s'. repeat split; assumption.
Qed.

Lemma readerTurn_read_error_witness :
  exists s' : State,
    readerTurn (mkReadEnv None (mkReader [] EOF)) true connected
    = Returns tt s'
    /\ conn s' = false /\ terminate s' = true
    /\ trace s'
       = trace connected
         ++ shutdownEvents (hasDisconnectHandler connected)
              (Some (withMessage (Io EOF) "could not read packet")).
Proof.
  apply (readerTurn_read_error (mkReadEnv None (mkReader [] EOF)) true
           connected EOF); reflexivity.
Defined.

(** X25: the routing of a decoded packet.  A packet that the broadcast
    checker accepts goes to the broadcast handler, which gets its body
    (the terminator that [Body()] adds is cut off again), and never to the
    dispatcher of the mailboxes; without a handler it is dropped.  Any
    other packet is handed to the dispatcher, or dropped when the
    dispatcher does not take it in time.  Nothing else changes. *)
Theorem readerTurn_routing (env : ReadEnv) (dispatched : bool) (s : State)
    (p : ClientPacket) (rest : Reader) :
  conn s = true -> deadlineErr env = None ->
  DecodeClientPacket (EndianMode s) (inbound env) = Decoded p rest ->
  readerTurn env dispatched s
  = Returns tt
      (if BroadcastChecker s p
       then (if hasBroadcastHandler s
             then emit (EvBroadcastHandler (body p)) s else s)
       else (if dispatched then emit (EvToDispatcher p) s else s)).
Proof.
  intros Hc Hd Hr. unfold readerTurn, bind, readPacket, gets, modify, ret.
  rewrite Hc. cbn [negb]. rewrite Hd, Hr.
  destruct (BroadcastChecker s p).
  - destruct (hasBroadcastHandler s); [|reflexivity].
    unfold Body. rewrite length_app. cbn [length].
    replace (length (body p) + 1 - 1)%nat with (length (body p)) by lia.
    now rewrite take_app_length.
  - destruct dispatched; reflexivity.
Qed.

(** Scenario S5: with the Mordhau preset a packet with the ID 54325 goes
    to the broadcast handler. *)
Lemma readerTurn_routing_witness :
  readerTurn (mkReadEnv None (mkReader (fst (Build chatBroadcast)) EOF)) true
    mordhauSession
  = Returns tt
      (if BroadcastChecker mordhauSession chatBroadcast
       then (if hasBroadcastHandler mordhauSession
             then emit (EvBroadcastHandler (body chatBroadcast)) mordhauSession
             else mordhauSession)
       else (if true then emit (EvToDispatcher chatBroadcast) mordhauSession
             else mordhauSession)).
Proof.
  apply (readerTurn_routing
           (mkReadEnv None (mkReader (fst (Build chatBroadcast)) EOF)) true
           mordhauSession chatBroadcast (mkReader [] EOF)); reflexivity.
Defined.

Example mordhau_broadcast :
  List.last
    (trace (final_state
              (readerTurn
                 (mkReadEnv None (mkReader (fst (Build chatBroadcast)) EOF))
                 true mordhauSession))) EvTerminate
  = EvBroadcastHandler (list_byte_of_string "Chat: hello").
Proof. vm_compute. reflexivity. Qed.

(** X26: the writer writes to the socket the frame of the packet it has
    received -- size, ID, type, body and two null bytes -- and nothing
    else; when the write fails the error is dropped and the session is
    left as it is: the writer does not shut it down. *)
Theorem writerTurn_send (p : ClientPacket) (werr : option ioerror)
    (s : State) :
  conn s = true ->
  writerTurn (Some (p, werr)) s
  = Returns tt
      (match werr with
       | None =>
           emit (EvSocketWrite
                   (frame (mode p) (Size p) (id p) (pType p)
                      (body p ++ [NUL; NUL]))) s
       | Some _ => s
       end).
Proof.
  intros Hc. unfold writerTurn, bind, gets, sendPacket.
  rewrite (surjective_pairing (Build p)), Build_no_error.
  unfold bind, write, ret. rewrite Hc.
  destruct werr; [reflexivity|]. rewrite Build_bytes. reflexivity.
Qed.

Lemma writerTurn_send_witness :
  writerTurn (Some (helloPacket, None)) connected
  = Returns tt
      (emit (EvSocketWrite
               (frame (mode helloPacket) (Size helloPacket) (id helloPacket)
                  (pType helloPacket) (body helloPacket ++ [NUL; NUL])))
         connected).
Proof.
  apply (writerTurn_send helloPacket None connected). reflexivity.
Defined.

End Fibers.

(** ** The layout of a built frame *)

Section FrameLayout.
Import packet.

(** X27: for a body of at most 2^31 - 11 bytes, the frame returned by
    [Build] is the size field holding [len(body) + 10], the ID, the type,
    the body and two null bytes, each word in the byte order of the
    packet; the size field is the length of the frame less 4. *)
Theorem Build_frame_layout (p : ClientPacket) :
  Z.of_nat (length (body p)) + 10 <= MaxInt32 ->
  Build p
  = (frame (mode p) (Z.of_nat (length (body p)) + 10) (id p) (pType p)
       (body p ++ [NUL; NUL]), None)
  /\ sizeField (mode p) (fst (Build p))
     = Z.of_nat (length (fst (Build p))) - 4.
Proof.
  intros H. split.
  - rewrite (surjective_pairing (Build p)), Build_no_error, Build_bytes.
    now rewrite Size_small by exact H.
  - rewrite sizeField_Build, Size_small, Build_length by exact H. lia.
Qed.

Lemma Build_frame_layout_witness :
  Build helloPacket
  = (frame (mode helloPacket) (Z.of_nat (length (body helloPacket)) + 10)
       (id helloPacket) (pType helloPacket) (body helloPacket ++ [NUL; NUL]),
     None)
  /\ sizeField (mode helloPacket) (fst (Build helloPacket))
     = Z.of_nat (length (fst (Build helloPacket))) - 4.
Proof.
  apply (Build_frame_layout helloPacket). vm_compute. discriminate.
Defined.

End FrameLayout.
